(** * wplace: the pixel-write arbitration core of [server.js]

    A shallow embedding of the request handlers of [server.js] (Express +
    Socket.io + SQLite) and the properties of the write path: structural
    validation, the per-IP cooldown tables, the [pixels] table and the
    events sent to clients.

    Conventions of the embedding.
    - A handler and the SQLite completion callback it registers run as one
      step.  What the environment decides is an explicit input: the value
      of [Date.now()] and whether SQLite reports an error for the
      statement.  A statement that fails leaves the table as it was.
    - The configuration constants are integers (a [parseInt] that yields
      [NaN] is outside the model).
    - Numbers are split into the integer-valued ones, which is all the
      handlers ever compute with, and the others.  [-0] is identified
      with [0].
    - A cooldown table is the finite map of the own properties of the
      object; its keys are network addresses, never the name of a property
      inherited from [Object.prototype].
    - What the middleware in front of a handler does (body parsing, the
      request-volume limiter on [/api/]) is not part of a handler. *)

From Stdlib Require Import ZArith List String Ascii Bool Lia.
From Stdlib Require DecimalString DecimalZ DecimalPos.
From stdpp Require Import base option gmap strings.
Import ListNotations.

Local Open Scope string_scope.
Local Open Scope Z_scope.

#[local] Set Warnings "-register-all".

(** ** JavaScript values that reach the handlers *)

Inductive jsval : Type :=
| VUndefined
| VNull
| VBool (b : bool)
| VInt (n : Z)          (* a number whose value is an integer *)
| VOtherNum             (* any other number: fractional, NaN, +-Infinity *)
| VStr (s : string)
| VArr (items : list jsval)
| VObj (fields : list (string * jsval)).

(** [Number.isInteger(v)] *)
Definition Number_isInteger (v : jsval) : bool :=
  match v with
  | VInt _ => true
  | _ => false
  end.

(** The numeric value of a number that passed [Number.isInteger]. *)
Definition int_value (v : jsval) : Z :=
  match v with
  | VInt n => n
  | _ => 0
  end.

(** The characters of a string that passed [typeof c === 'string']. *)
Definition string_value (v : jsval) : string :=
  match v with
  | VStr c => c
  | _ => ""
  end.

(** Own property [k] of an object literal; [undefined] when absent. *)
Fixpoint own_property (k : string) (fields : list (string * jsval)) : jsval :=
  match fields with
  | [] => VUndefined
  | (k', v) :: rest => if String.eqb k' k then v else own_property k rest
  end.

(** [const { x, y, color } = data].  Destructuring [undefined] or [null]
    throws a TypeError ([None]).  A primitive or an array is coerced to an
    object that has none of the three properties. *)
Definition destructure (data : jsval) : option (jsval * jsval * jsval) :=
  match data with
  | VUndefined | VNull => None
  | VObj fields =>
      Some (own_property "x" fields, own_property "y" fields,
            own_property "color" fields)
  | _ => Some (VUndefined, VUndefined, VUndefined)
  end.

(** [v || 0] for a table entry [v] that is a timestamp or missing. *)
Definition or_zero (v : option Z) : Z :=
  match v with
  | Some t => if t =? 0 then 0 else t
  | None => 0
  end.

(** ** validColor *)

(** The character class [[0-9A-Fa-f]]. *)
Definition hex_class (a : ascii) : bool :=
  (Ascii.leb "0" a && Ascii.leb a "9")
  || (Ascii.leb "A" a && Ascii.leb a "F")
  || (Ascii.leb "a" a && Ascii.leb a "f").

(** [[0-9A-Fa-f]{n}$] *)
Fixpoint hex_run (n : nat) (s : string) : bool :=
  match n, s with
  | O, EmptyString => true
  | S n', String a s' => hex_class a && hex_run n' s'
  | _, _ => false
  end.

(** [/^#[0-9A-Fa-f]{6}$/.test(s)] *)
Definition color_regex_test (s : string) : bool :=
  match s with
  | String "#" rest => hex_run 6 rest
  | _ => false
  end.

(** [function validColor(c)] *)
Definition validColor (c : jsval) : bool :=
  match c with
  | VStr s => color_regex_test s
  | _ => false
  end.

(** ** Configuration *)

Record config : Type := {
  CANVAS_W : Z;
  CANVAS_H : Z;
  PLACE_COOLDOWN_MS : Z
}.

(** The defaults of [server.js]: ['300'], ['150'], ['5000']. *)
Definition default_config : config :=
  {| CANVAS_W := 300; CANVAS_H := 150; PLACE_COOLDOWN_MS := 5000 |}.

(** ** The [pixels] table

    [CREATE TABLE pixels (x, y, color, last_modified, PRIMARY KEY (x, y))],
    as the list of its rows in rowid order. *)

Record pixel_row : Type := {
  row_x : Z;
  row_y : Z;
  row_color : string;
  row_last_modified : Z
}.

Definition same_coord (x y : Z) (r : pixel_row) : bool :=
  (row_x r =? x) && (row_y r =? y).

(** [INSERT INTO pixels(x,y,color,last_modified) VALUES(?,?,?,?)
     ON CONFLICT(x,y) DO UPDATE SET color=excluded.color,
     last_modified=excluded.last_modified] *)
Fixpoint upsert (x y : Z) (color : string) (ts : Z)
    (t : list pixel_row) : list pixel_row :=
  match t with
  | [] =>
      [ {| row_x := x; row_y := y; row_color := color;
           row_last_modified := ts |} ]
  | r :: t' =>
      if same_coord x y r
      then {| row_x := row_x r; row_y := row_y r; row_color := color;
              row_last_modified := ts |} :: t'
      else r :: upsert x y color ts t'
  end.

(** One result row of [SELECT x, y, color FROM pixels]. *)
Definition selected (r : pixel_row) : jsval :=
  VObj [("x", VInt (row_x r)); ("y", VInt (row_y r));
        ("color", VStr (row_color r))].

(** [SELECT x, y, color FROM pixels] *)
Definition select_pixels (t : list pixel_row) : list jsval :=
  map selected t.

(** The cell stored at a coordinate: its color and timestamp. *)
Definition cell_at (x y : Z) (t : list pixel_row) : option (string * Z) :=
  match find (same_coord x y) t with
  | Some r => Some (row_color r, row_last_modified r)
  | None => None
  end.

Definition coord (r : pixel_row) : Z * Z := (row_x r, row_y r).

(** The PRIMARY KEY constraint. *)
Definition one_row_per_coord (t : list pixel_row) : Prop :=
  NoDup (map coord t).

(** ** Server state and what a handler produces *)

Record server_state : Type := {
  pixels : list pixel_row;                       (* pixels.db *)
  _placeCooldown : option (gmap string Z);       (* global._placeCooldown *)
  _socketCooldown : option (gmap string Z)       (* global._socketCooldown *)
}.

(** A fresh process on an empty database. *)
Definition initial_state : server_state :=
  {| pixels := []; _placeCooldown := None; _socketCooldown := None |}.

Record socket : Type := {
  socket_id : nat;
  handshake_address : string                     (* socket.handshake.address *)
}.

(** [socket.emit] reaches one client, [io.emit] every connected one. *)
Inductive emitter : Type :=
| SocketEmit (id : nat)
| IoEmit.

Record emission : Type := {
  sent_by : emitter;
  event : string;
  payload : jsval
}.

Record response : Type := {
  status : Z;
  body : jsval
}.

(** The statement by which a handler leaves. *)
Inductive exit_point : Type :=
| ThrewTypeError        (* the destructuring threw *)
| NotInteger            (* first guard *)
| OutOfBounds           (* second guard *)
| BadColor              (* third guard *)
| CooldownDenied        (* ts - last < PLACE_COOLDOWN_MS *)
| DbError               (* the callback got err *)
| Done.                 (* the callback ran to its end *)

Record outcome : Type := {
  st : server_state;
  exit : exit_point;
  reply : option response;
  emitted : list emission
}.

Definition error_json (msg : string) : jsval := VObj [("error", VStr msg)].

(** [res.status(code).json(v)] *)
Definition json_reply (code : Z) (v : jsval) : option response :=
  Some {| status := code; body := v |}.

(** The object literal [{ x, y, color }]. *)
Definition pixel_json (x y color : jsval) : jsval :=
  VObj [("x", x); ("y", y); ("color", color)].

(** [io.emit('pixel', { x, y, color })] *)
Definition pixel_event (x y color : jsval) : emission :=
  {| sent_by := IoEmit; event := "pixel"; payload := pixel_json x y color |}.

(** ** The REST endpoints *)

(** [app.get('/api/pixels', ...)] *)
Definition get_api_pixels (db_err : bool) (s : server_state) : outcome :=
  if db_err
  then {| st := s; exit := DbError;
          reply := json_reply 500 (error_json "db"); emitted := [] |}
  else {| st := s; exit := Done;
          reply := json_reply 200 (VArr (select_pixels (pixels s)));
          emitted := [] |}.

(** [app.post('/api/place', ...)] with [ip = req.ip], [body = req.body],
    [ts = Date.now()].  A TypeError of the destructuring leaves the
    handler; the reply is then Express's, not the handler's. *)
Definition post_api_place (cfg : config) (ip : string) (body : jsval)
    (ts : Z) (db_err : bool) (s : server_state) : outcome :=
  match destructure body with
  | None => {| st := s; exit := ThrewTypeError; reply := None; emitted := [] |}
  | Some (x, y, color) =>
    if negb (Number_isInteger x) || negb (Number_isInteger y)
    then {| st := s; exit := NotInteger;
            reply := json_reply 400 (error_json "invalid coords");
            emitted := [] |}
    else if (int_value x <? 0) || (int_value x >=? CANVAS_W cfg)
            || (int_value y <? 0) || (int_value y >=? CANVAS_H cfg)
    then {| st := s; exit := OutOfBounds;
            reply := json_reply 400 (error_json "out of bounds");
            emitted := [] |}
    else if negb (validColor color)
    then {| st := s; exit := BadColor;
            reply := json_reply 400 (error_json "invalid color");
            emitted := [] |}
    else
      (* if (!global._placeCooldown) global._placeCooldown = {} *)
      let table := default ∅ (_placeCooldown s) in
      let last := or_zero (table !! ip) in
      if ts - last <? PLACE_COOLDOWN_MS cfg
      then {| st := {| pixels := pixels s;
                       _placeCooldown := Some table;
                       _socketCooldown := _socketCooldown s |};
              exit := CooldownDenied;
              reply := json_reply 429 (error_json "cooldown");
              emitted := [] |}
      else
        let table' := <[ip := ts]> table in
        if db_err
        then {| st := {| pixels := pixels s;
                         _placeCooldown := Some table';
                         _socketCooldown := _socketCooldown s |};
                exit := DbError;
                reply := json_reply 500 (error_json "db");
                emitted := [] |}
        else {| st := {| pixels :=
                           upsert (int_value x) (int_value y)
                                  (string_value color)
                                  ts (pixels s);
                         _placeCooldown := Some table';
                         _socketCooldown := _socketCooldown s |};
                exit := Done;
                reply := json_reply 200 (VObj [("ok", VBool true)]);
                emitted := [pixel_event x y color] |}
  end.

(** ** The Socket.io handlers *)

(** [socket.on('getPixels', ...)] *)
Definition socket_on_getPixels (sock : socket) (db_err : bool)
    (s : server_state) : outcome :=
  if db_err
  then {| st := s; exit := DbError; reply := None;
          emitted := [ {| sent_by := SocketEmit (socket_id sock);
                          event := "error"; payload := VStr "db" |} ] |}
  else {| st := s; exit := Done; reply := None;
          emitted := [ {| sent_by := SocketEmit (socket_id sock);
                          event := "pixels";
                          payload := VArr (select_pixels (pixels s)) |} ] |}.

(** The body of the [try] block of [socket.on('place', ...)]; [None] when
    it throws. *)
Definition socket_place_try (cfg : config) (sock : socket) (data : jsval)
    (ts : Z) (db_err : bool) (s : server_state) : option outcome :=
  let ip := handshake_address sock in
  match destructure data with
  | None => None
  | Some (x, y, color) =>
    if negb (Number_isInteger x) || negb (Number_isInteger y)
    then Some {| st := s; exit := NotInteger; reply := None; emitted := [] |}
    else if (int_value x <? 0) || (int_value x >=? CANVAS_W cfg)
            || (int_value y <? 0) || (int_value y >=? CANVAS_H cfg)
    then Some {| st := s; exit := OutOfBounds; reply := None; emitted := [] |}
    else if negb (validColor color)
    then Some {| st := s; exit := BadColor; reply := None; emitted := [] |}
    else
      (* if (!global._socketCooldown) global._socketCooldown = {} *)
      let table := default ∅ (_socketCooldown s) in
      let last := or_zero (table !! ip) in
      if ts - last <? PLACE_COOLDOWN_MS cfg
      then Some {| st := {| pixels := pixels s;
                            _placeCooldown := _placeCooldown s;
                            _socketCooldown := Some table |};
                   exit := CooldownDenied; reply := None;
                   emitted :=
                     [ {| sent_by := SocketEmit (socket_id sock);
                          event := "placeDenied";
                          payload := VObj [("reason", VStr "cooldown")] |} ]
                |}
      else
        let table' := <[ip := ts]> table in
        if db_err
        then Some {| st := {| pixels := pixels s;
                              _placeCooldown := _placeCooldown s;
                              _socketCooldown := Some table' |};
                     exit := DbError; reply := None; emitted := [] |}
        else Some {| st := {| pixels :=
                                upsert (int_value x) (int_value y)
                                       (string_value color)
                                       ts (pixels s);
                              _placeCooldown := _placeCooldown s;
                              _socketCooldown := Some table' |};
                     exit := Done; reply := None;
                     emitted := [pixel_event x y color] |}
  end.

(** [socket.on('place', ...)]: the [catch] clause is empty. *)
Definition socket_on_place (cfg : config) (sock : socket) (data : jsval)
    (ts : Z) (db_err : bool) (s : server_state) : outcome :=
  match socket_place_try cfg sock data ts db_err s with
  | Some o => o
  | None => {| st := s; exit := ThrewTypeError; reply := None; emitted := [] |}
  end.

(** ** The event loop *)

Inductive request : Type :=
| GET_api_pixels
| POST_api_place (ip : string) (body : jsval)
| On_getPixels (sock : socket)
| On_place (sock : socket) (data : jsval).

(** What the environment contributes to one step. *)
Record environment : Type := {
  now : Z;              (* Date.now() *)
  db_fails : bool       (* SQLite reports an error *)
}.

Definition handle (cfg : config) (req : request) (e : environment)
    (s : server_state) : outcome :=
  match req with
  | GET_api_pixels => get_api_pixels (db_fails e) s
  | POST_api_place ip body => post_api_place cfg ip body (now e) (db_fails e) s
  | On_getPixels sock => socket_on_getPixels sock (db_fails e) s
  | On_place sock data => socket_on_place cfg sock data (now e) (db_fails e) s
  end.

(** The state after a sequence of requests. *)
Fixpoint run (cfg : config) (reqs : list (request * environment))
    (s : server_state) : server_state :=
  match reqs with
  | [] => s
  | (req, e) :: rest => run cfg rest (st (handle cfg req e s))
  end.

(** Whether client [c] receives an emission, [clients] being the sockets
    connected at the time. *)
Definition receives (clients : list nat) (c : nat) (m : emission) : Prop :=
  match sent_by m with
  | SocketEmit id => id = c
  | IoEmit => In c clients
  end.

(** ** The vocabulary of the specification *)

(** The arbiter's results. *)
Inductive rejection : Type :=
| InvalidInput
| Cooldown
| StorageFailure.

Inductive verdict : Type :=
| Accepted
| Rejected (why : rejection).

(** The result a handler's exit stands for.  A payload that cannot be
    destructured is malformed input. *)
Definition verdict_of (e : exit_point) : verdict :=
  match e with
  | ThrewTypeError | NotInteger | OutOfBounds | BadColor => Rejected InvalidInput
  | CooldownDenied => Rejected Cooldown
  | DbError => Rejected StorageFailure
  | Done => Accepted
  end.

(** [x] is a number with an integer value. *)
Definition is_integer (v : jsval) : Prop := exists n, v = VInt n.

(** [0 <= x < W] and [0 <= y < H]. *)
Definition in_bounds (cfg : config) (x y : jsval) : Prop :=
  0 <= int_value x < CANVAS_W cfg /\ 0 <= int_value y < CANVAS_H cfg.

(** A hexadecimal digit, in either case. *)
Definition hex_digit (a : ascii) : Prop :=
  In a (list_ascii_of_string "0123456789abcdefABCDEF").

(** A string: ['#'] followed by exactly six hexadecimal digits. *)
Definition canonical_color (c : jsval) : Prop :=
  exists digits,
    c = VStr (String "#" (string_of_list_ascii digits))
    /\ length digits = 6%nat
    /\ Forall hex_digit digits.

(** Structural validation, in the words of the specification. *)
Definition structurally_valid (cfg : config) (x y color : jsval) : Prop :=
  is_integer x /\ is_integer y /\ in_bounds cfg x y /\ canonical_color color.

(** The rate-limit entry of an actor in one of the two tables. *)
Definition lastAcceptedAt (table : option (gmap string Z)) (ip : string)
    : option Z :=
  match table with
  | Some t => t !! ip
  | None => None
  end.

(** [now - lastAcceptedAt < cooldownDuration], an actor without an entry
    counting from the epoch. *)
Definition within_cooldown (cfg : config) (table : option (gmap string Z))
    (ip : string) (ts : Z) : Prop :=
  ts - default 0 (lastAcceptedAt table ip) < PLACE_COOLDOWN_MS cfg.

(** The [placeDenied] message of the real-time channel. *)
Definition placeDenied_event (sock : socket) : emission :=
  {| sent_by := SocketEmit (socket_id sock);
     event := "placeDenied";
     payload := VObj [("reason", VStr "cooldown")] |}.

(** A payload that is an object. *)
Definition is_object (v : jsval) : bool :=
  match v with
  | VObj _ | VArr _ => true
  | _ => false
  end.

(** The three guards of both [place] handlers, as one test. *)
Definition guards_pass (cfg : config) (x y color : jsval) : bool :=
  negb (negb (Number_isInteger x) || negb (Number_isInteger y))
  && negb ((int_value x <? 0) || (int_value x >=? CANVAS_W cfg)
           || (int_value y <? 0) || (int_value y >=? CANVAS_H cfg))
  && validColor color.

(** Every run of a [place] handler is one of four. *)
Inductive place_run (cfg : config) (table : option (gmap string Z))
    (ip : string) (msg : jsval) (ts : Z) : exit_point -> Prop :=
| run_threw :
    destructure msg = None ->
    place_run cfg table ip msg ts ThrewTypeError
| run_invalid x y color e :
    destructure msg = Some (x, y, color) ->
    ~ structurally_valid cfg x y color ->
    verdict_of e = Rejected InvalidInput ->
    place_run cfg table ip msg ts e
| run_denied x y color :
    destructure msg = Some (x, y, color) ->
    structurally_valid cfg x y color ->
    within_cooldown cfg table ip ts ->
    place_run cfg table ip msg ts CooldownDenied
| run_admitted x y color e :
    destructure msg = Some (x, y, color) ->
    structurally_valid cfg x y color ->
    ~ within_cooldown cfg table ip ts ->
    e = DbError \/ e = Done ->
    place_run cfg table ip msg ts e.

(** An outcome that is an accepted write of [color] at [(x, y)]: the one
    that carries the [pixel] broadcast for it. *)
Definition accepted_write (o : outcome) (x y : Z) (color : string) : Prop :=
  exit o = Done /\ emitted o = [pixel_event (VInt x) (VInt y) (VStr color)].

(** ** Sample inputs *)

Definition sample_ip : string := "203.0.113.7".

Definition sample_socket : socket :=
  {| socket_id := 1; handshake_address := sample_ip |}.

(** [{ x: 10, y: 20, color: "#ff0000" }] *)
Definition red_10_20 : jsval := pixel_json (VInt 10) (VInt 20) (VStr "#ff0000").

(** [{ x: 11, y: 20, color: "#00ff00" }] *)
Definition green_11_20 : jsval :=
  pixel_json (VInt 11) (VInt 20) (VStr "#00ff00").

(** [{ x: 10, y: 20, color: "#0000ff" }] *)
Definition blue_10_20 : jsval := pixel_json (VInt 10) (VInt 20) (VStr "#0000ff").

(** [{ x: -1, y: 0, color: "#ffffff" }] *)
Definition white_left_of_canvas : jsval :=
  pixel_json (VInt (-1)) (VInt 0) (VStr "#ffffff").

(** A value of [Date.now()]. *)
Definition sample_now : Z := 1700000000000.

(** ** The connection handler *)

(** [io.on('connection', socket => { socket.emit('config', { width:
    CANVAS_W, height: CANVAS_H }); ... })]; the rest of the callback
    registers the two socket handlers. *)
Definition io_on_connection (cfg : config) (sock : socket)
    (s : server_state) : outcome :=
  {| st := s; exit := Done; reply := None;
     emitted := [ {| sent_by := SocketEmit (socket_id sock);
                     event := "config";
                     payload := VObj [("width", VInt (CANVAS_W cfg));
                                      ("height", VInt (CANVAS_H cfg))] |} ] |}.

(** ** The client, [script.js]

    The replica of the canvas that a browser keeps.  The canvas element,
    its drawing and the pointer arithmetic are not modelled.  A payload is
    read in the shape the server sends it; [None] stands for a payload of
    another shape, on which the model says nothing. *)

(** [String(n)] for an integer [n]: the decimal numeral (below [10^21] in
    magnitude, where JavaScript switches to the exponent form). *)
Definition decimal (n : Z) : string :=
  DecimalString.NilZero.string_of_int (Z.to_int n).

(** [Number(s)] for a string [s] that is a plain decimal numeral, exact
    below [2^53]; [None] for any other string. *)
Definition Number_of (s : string) : option Z :=
  match DecimalString.NilZero.int_of_string s with
  | Some d => Some (Z.of_int d)
  | None => None
  end.

(** [s.split(',')] *)
Fixpoint split_comma (s : string) : list string :=
  match s with
  | EmptyString => [EmptyString]
  | String a rest =>
      if Ascii.eqb a ","
      then EmptyString :: split_comma rest
      else match split_comma rest with
           | part :: parts => String a part :: parts
           | [] => [String a EmptyString]
           end
  end.

Module Client.

(** The key [`${x},${y}`] of a cell in [pixels]. *)
Definition key (x y : Z) : string := decimal x ++ "," ++ decimal y.

(** [const [x,y] = k.split(',').map(Number)] of [drawAllPixels]. *)
Definition cell_of_key (k : string) : option (Z * Z) :=
  match split_comma k with
  | a :: b :: _ =>
      match Number_of a, Number_of b with
      | Some x, Some y => Some (x, y)
      | _, _ => None
      end
  | _ => None
  end.

Record state : Type := {
  W : Z;
  H : Z;
  pixels : gmap string string        (* key = `${x},${y}` -> color *)
}.

(** [let W = 300, H = 150; let pixels = {}] *)
Definition initial : state := {| W := 300; H := 150; pixels := ∅ |}.

(** A payload [{ x, y, color }] as the server sends it. *)
Definition as_cell (p : jsval) : option (Z * Z * string) :=
  match p with
  | VObj fields =>
      match own_property "x" fields, own_property "y" fields,
            own_property "color" fields with
      | VInt x, VInt y, VStr color => Some (x, y, color)
      | _, _, _ => None
      end
  | _ => None
  end.

(** [socket.on('config', cfg => { W = cfg.width; H = cfg.height; ... })] *)
Definition on_config (cfg : jsval) (c : state) : option state :=
  match cfg with
  | VObj fields =>
      match own_property "width" fields, own_property "height" fields with
      | VInt w, VInt h => Some {| W := w; H := h; pixels := pixels c |}
      | _, _ => None
      end
  | _ => None
  end.

(** [rows.forEach(r => { pixels[`${r.x},${r.y}`] = r.color; })] *)
Fixpoint fill (rows : list jsval) (m : gmap string string)
    : option (gmap string string) :=
  match rows with
  | [] => Some m
  | r :: rest =>
      match as_cell r with
      | Some (x, y, color) => fill rest (<[key x y := color]> m)
      | None => None
      end
  end.

(** [socket.on('pixels', rows => { pixels = {}; rows.forEach(...); ... })] *)
Definition on_pixels (rows : jsval) (c : state) : option state :=
  match rows with
  | VArr items =>
      match fill items ∅ with
      | Some m => Some {| W := W c; H := H c; pixels := m |}
      | None => None
      end
  | _ => None
  end.

(** [socket.on('pixel', p => { pixels[`${p.x},${p.y}`] = p.color; ... })] *)
Definition on_pixel (p : jsval) (c : state) : option state :=
  match as_cell p with
  | Some (x, y, color) =>
      Some {| W := W c; H := H c; pixels := <[key x y := color]> (pixels c) |}
  | None => None
  end.

(** [function placePixel(x,y,color) { socket.emit('place', { x, y, color }) }]:
    the event and its payload. *)
Definition placePixel (x y color : jsval) : string * jsval :=
  ("place", pixel_json x y color).

(** The listener that an event reaches.  [placeDenied] only sets the
    status line and no listener is registered for [error]. *)
Definition dispatch (m : emission) (c : state) : option state :=
  if String.eqb (event m) "config" then on_config (payload m) c
  else if String.eqb (event m) "pixels" then on_pixels (payload m) c
  else if String.eqb (event m) "pixel" then on_pixel (payload m) c
  else Some c.

(** What the client whose socket is [me] makes of an emission of the
    server. *)
Definition receive (me : nat) (m : emission) (c : state) : option state :=
  match sent_by m with
  | SocketEmit id => if Nat.eqb id me then dispatch m c else Some c
  | IoEmit => dispatch m c
  end.

(** The emissions of one step of the server, in order. *)
Fixpoint receive_all (me : nat) (ms : list emission) (c : state)
    : option state :=
  match ms with
  | [] => Some c
  | m :: rest =>
      match receive me m c with
      | Some c' => receive_all me rest c'
      | None => None
      end
  end.

End Client.

(** The replica a client builds from a snapshot of table [t]. *)
Definition replica_of (t : list pixel_row) : gmap string string :=
  fold_left (fun m r => <[Client.key (row_x r) (row_y r) := row_color r]> m)
            t ∅.

(** A connected client follows the server through a sequence of requests,
    each emission delivered as it is sent. *)
Fixpoint follow (cfg : config) (me : nat)
    (reqs : list (request * environment)) (s : server_state)
    (c : Client.state) : option Client.state :=
  match reqs with
  | [] => Some c
  | (req, e) :: rest =>
      match Client.receive_all me (emitted (handle cfg req e s)) c with
      | Some c' => follow cfg me rest (st (handle cfg req e s)) c'
      | None => None
      end
  end.

(** Every row lies on the canvas and holds a canonical color. *)
Definition on_canvas (cfg : config) (t : list pixel_row) : Prop :=
  Forall (fun r => 0 <= row_x r < CANVAS_W cfg
                   /\ 0 <= row_y r < CANVAS_H cfg
                   /\ canonical_color (VStr (row_color r))) t.

(** The actor a request is rate-limited as, on each path. *)
Definition rest_actor (req : request) : option string :=
  match req with
  | POST_api_place ip _ => Some ip
  | _ => None
  end.

Definition socket_actor (req : request) : option string :=
  match req with
  | On_place sock _ => Some (handshake_address sock)
  | _ => None
  end.

(** Two states that no request can tell apart: the same table of pixels
    and the same rate-limit entries. *)
Definition same_view (s1 s2 : server_state) : Prop :=
  pixels s1 = pixels s2
  /\ (forall a, lastAcceptedAt (_placeCooldown s1) a
                = lastAcceptedAt (_placeCooldown s2) a)
  /\ (forall a, lastAcceptedAt (_socketCooldown s1) a
                = lastAcceptedAt (_socketCooldown s2) a).

(** What the handlers produce for a sequence of requests that reach them:
    how each one left, its reply and its emissions.  Which REST requests
    reach a handler is for the request-volume limiter in front of [/api/]
    to decide; its counter is no part of this. *)
Fixpoint trace (cfg : config) (reqs : list (request * environment))
    (s : server_state) : list (exit_point * option response * list emission) :=
  match reqs with
  | [] => []
  | (req, e) :: rest =>
      (exit (handle cfg req e s), reply (handle cfg req e s),
       emitted (handle cfg req e s))
      :: trace cfg rest (st (handle cfg req e s))
  end.

(** ** Validation *)

Lemma Number_isInteger_spec v : Number_isInteger v = true <-> is_integer v.
Proof.
  unfold is_integer. destruct v; simpl; split;
    try discriminate; try (intros [m Hm]; discriminate Hm); eauto.
Qed.

Lemma hex_class_spec a : hex_class a = true <-> hex_digit a.
Proof.
  unfold hex_digit.
  destruct a as [[] [] [] [] [] [] [] []]; vm_compute;
    (split; [ intros H; first [ discriminate H | tauto ]
            | intros H; first [ reflexivity
                              | decompose [or] H; first [ discriminate | contradiction ] ] ]).
Qed.

Lemma hex_run_spec n s :
  hex_run n s = true <->
  exists digits, s = string_of_list_ascii digits
                 /\ length digits = n /\ Forall hex_digit digits.
Proof.
  revert s. induction n as [|n IH]; intros s.
  - destruct s as [|a s]; simpl; split.
    + intros _. exists []. repeat split; constructor.
    + reflexivity.
    + discriminate.
    + intros [[|d ds] (Hs & Hlen & _)]; simpl in *; discriminate.
  - destruct s as [|a s]; simpl; split.
    + discriminate.
    + intros [[|d ds] (Hs & Hlen & _)]; simpl in *; discriminate.
    + intros H. apply andb_prop in H as [Ha Hs].
      apply IH in Hs as (ds & -> & Hlen & Hall).
      exists (a :: ds). simpl. repeat split; try congruence.
      constructor; [ now apply hex_class_spec | exact Hall ].
    + intros [[|d ds] (Hs & Hlen & Hall)]; simpl in *; try discriminate.
      injection Hs as -> ->. inversion Hall; subst.
      apply andb_true_intro. split; [ now apply hex_class_spec |].
      apply IH. exists ds. repeat split; [ congruence | assumption ].
Qed.

Lemma validColor_spec c : validColor c = true <-> canonical_color c.
Proof.
  unfold canonical_color. split.
  - destruct c as [| | | | | s | |]; try discriminate.
    destruct s as [|a s]; try discriminate.
    destruct a as [[] [] [] [] [] [] [] []]; try discriminate.
    change (hex_run 6 s = true ->
            exists digits,
              VStr (String "#" s) = VStr (String "#" (string_of_list_ascii digits))
              /\ length digits = 6%nat /\ Forall hex_digit digits).
    intros H. apply hex_run_spec in H as (ds & -> & Hlen & Hall).
    exists ds. auto.
  - intros (ds & -> & Hlen & Hall).
    change (hex_run 6 (string_of_list_ascii ds) = true).
    apply hex_run_spec. exists ds. auto.
Qed.

Lemma guards_pass_spec cfg x y color :
  guards_pass cfg x y color = true <-> structurally_valid cfg x y color.
Proof.
  unfold guards_pass, structurally_valid, in_bounds.
  rewrite <- validColor_spec, <- !Number_isInteger_spec.
  rewrite !andb_true_iff, !negb_true_iff, !orb_false_iff, !negb_false_iff.
  rewrite !Z.ltb_ge, !Z.geb_leb, !Z.leb_gt. intuition lia.
Qed.

Lemma guards_fail_spec cfg x y color :
  guards_pass cfg x y color = false <-> ~ structurally_valid cfg x y color.
Proof.
  rewrite <- guards_pass_spec. destruct (guards_pass cfg x y color); split;
    congruence.
Qed.

(** ** The two [place] handlers, case by case *)

Lemma or_zero_default (table : option (gmap string Z)) ip :
  or_zero (default ∅ table !! ip) = default 0 (lastAcceptedAt table ip).
Proof.
  destruct table as [t|]; simpl.
  - destruct (t !! ip) as [v|]; simpl; [| reflexivity ].
    destruct (Z.eqb_spec v 0); congruence.
  - rewrite lookup_empty. reflexivity.
Qed.

Lemma cooldown_test_spec cfg (table : option (gmap string Z)) ip ts :
  (ts - or_zero (default ∅ table !! ip) <? PLACE_COOLDOWN_MS cfg) = true
  <-> within_cooldown cfg table ip ts.
Proof.
  unfold within_cooldown. rewrite or_zero_default. apply Z.ltb_lt.
Qed.

Lemma cooldown_test_false cfg (table : option (gmap string Z)) ip ts :
  (ts - or_zero (default ∅ table !! ip) <? PLACE_COOLDOWN_MS cfg) = false
  <-> ~ within_cooldown cfg table ip ts.
Proof.
  rewrite <- cooldown_test_spec.
  destruct (ts - or_zero (default ∅ table !! ip) <? PLACE_COOLDOWN_MS cfg);
    split; congruence.
Qed.

Ltac split_guards H :=
  unfold guards_pass in H;
  repeat match type of H with
         | context [Number_isInteger ?v] =>
             destruct (Number_isInteger v); simpl in H
         | context [validColor ?v] => destruct (validColor v); simpl in H
         | context [negb ?b] => destruct b; simpl in H
         end;
  try discriminate H.

Lemma post_api_place_invalid cfg ip msg x y color ts db_err s :
  destructure msg = Some (x, y, color) ->
  guards_pass cfg x y color = false ->
  exists e why,
    post_api_place cfg ip msg ts db_err s
    = {| st := s; exit := e; reply := json_reply 400 (error_json why);
         emitted := [] |}
    /\ verdict_of e = Rejected InvalidInput.
Proof.
  intros Hd Hg. unfold post_api_place. rewrite Hd.
  split_guards Hg; simpl; eauto.
Qed.

Lemma post_api_place_valid cfg ip msg x y color ts db_err s :
  destructure msg = Some (x, y, color) ->
  guards_pass cfg x y color = true ->
  post_api_place cfg ip msg ts db_err s
  = let table := default ∅ (_placeCooldown s) in
    if ts - or_zero (table !! ip) <? PLACE_COOLDOWN_MS cfg
    then {| st := {| pixels := pixels s; _placeCooldown := Some table;
                     _socketCooldown := _socketCooldown s |};
            exit := CooldownDenied;
            reply := json_reply 429 (error_json "cooldown");
            emitted := [] |}
    else {| st := {| pixels :=
                       if db_err then pixels s
                       else upsert (int_value x) (int_value y)
                              (string_value color)
                              ts (pixels s);
                     _placeCooldown := Some (<[ip := ts]> table);
                     _socketCooldown := _socketCooldown s |};
            exit := if db_err then DbError else Done;
            reply := if db_err then json_reply 500 (error_json "db")
                     else json_reply 200 (VObj [("ok", VBool true)]);
            emitted := if db_err then [] else [pixel_event x y color] |}.
Proof.
  intros Hd Hg. unfold post_api_place. rewrite Hd.
  split_guards Hg; simpl.
  destruct (_ <? _); [ reflexivity |]. destruct db_err; reflexivity.
Qed.

Lemma socket_on_place_invalid cfg sock msg x y color ts db_err s :
  destructure msg = Some (x, y, color) ->
  guards_pass cfg x y color = false ->
  exists e,
    socket_on_place cfg sock msg ts db_err s
    = {| st := s; exit := e; reply := None; emitted := [] |}
    /\ verdict_of e = Rejected InvalidInput.
Proof.
  intros Hd Hg. unfold socket_on_place, socket_place_try. rewrite Hd.
  split_guards Hg; simpl; eauto.
Qed.

Lemma socket_on_place_valid cfg sock msg x y color ts db_err s :
  destructure msg = Some (x, y, color) ->
  guards_pass cfg x y color = true ->
  socket_on_place cfg sock msg ts db_err s
  = let table := default ∅ (_socketCooldown s) in
    if ts - or_zero (table !! handshake_address sock) <? PLACE_COOLDOWN_MS cfg
    then {| st := {| pixels := pixels s; _placeCooldown := _placeCooldown s;
                     _socketCooldown := Some table |};
            exit := CooldownDenied; reply := None;
            emitted := [placeDenied_event sock] |}
    else {| st := {| pixels :=
                       if db_err then pixels s
                       else upsert (int_value x) (int_value y)
                              (string_value color)
                              ts (pixels s);
                     _placeCooldown := _placeCooldown s;
                     _socketCooldown :=
                       Some (<[handshake_address sock := ts]> table) |};
            exit := if db_err then DbError else Done;
            reply := None;
            emitted := if db_err then [] else [pixel_event x y color] |}.
Proof.
  intros Hd Hg. unfold socket_on_place, socket_place_try. rewrite Hd.
  split_guards Hg; simpl.
  destruct (_ <? _); [ reflexivity |]. destruct db_err; reflexivity.
Qed.

Lemma socket_on_place_throws cfg sock msg ts db_err s :
  destructure msg = None ->
  socket_on_place cfg sock msg ts db_err s
  = {| st := s; exit := ThrewTypeError; reply := None; emitted := [] |}.
Proof.
  intros Hd. unfold socket_on_place, socket_place_try. rewrite Hd. reflexivity.
Qed.

Lemma post_api_place_throws cfg ip msg ts db_err s :
  destructure msg = None ->
  post_api_place cfg ip msg ts db_err s
  = {| st := s; exit := ThrewTypeError; reply := None; emitted := [] |}.
Proof.
  intros Hd. unfold post_api_place. rewrite Hd. reflexivity.
Qed.

(** ** The [pixels] table under [upsert] *)

Lemma same_coord_spec x y r : same_coord x y r = true <-> coord r = (x, y).
Proof.
  unfold same_coord, coord. rewrite andb_true_iff, !Z.eqb_eq.
  split; [ intros [-> ->]; reflexivity | intros [= -> ->]; auto ].
Qed.

Lemma same_coord_false x y r : same_coord x y r = false <-> coord r <> (x, y).
Proof.
  rewrite <- same_coord_spec. destruct (same_coord x y r); split; congruence.
Qed.

Lemma coord_upsert x y color ts t k :
  k ∈ map coord (upsert x y color ts t) <-> k = (x, y) \/ k ∈ map coord t.
Proof.
  induction t as [|r t IH]; simpl.
  - rewrite list_elem_of_singleton. unfold coord; simpl.
    split; [ auto | intros [H | H]; [ exact H | inversion H ] ].
  - destruct (same_coord x y r) eqn:E; simpl.
    + apply same_coord_spec in E. rewrite !elem_of_cons.
      change (coord {| row_x := row_x r; row_y := row_y r; row_color := color;
                       row_last_modified := ts |}) with (coord r).
      rewrite E. tauto.
    + rewrite !elem_of_cons, IH. tauto.
Qed.

Lemma upsert_one_row_per_coord x y color ts t :
  one_row_per_coord t -> one_row_per_coord (upsert x y color ts t).
Proof.
  unfold one_row_per_coord.
  induction t as [|r t IH]; simpl; intros H.
  - apply NoDup_singleton.
  - apply NoDup_cons in H as [Hr Ht].
    destruct (same_coord x y r) eqn:E; simpl.
    + apply NoDup_cons. split; assumption.
    + apply NoDup_cons. split; [| auto ].
      rewrite coord_upsert. apply same_coord_false in E.
      intros [Hk | Hk]; [ exact (E Hk) | exact (Hr Hk) ].
Qed.

Lemma cell_at_upsert x y color ts t :
  cell_at x y (upsert x y color ts t) = Some (color, ts).
Proof.
  unfold cell_at. induction t as [|r t IH]; simpl.
  - unfold same_coord; simpl. rewrite !Z.eqb_refl. reflexivity.
  - destruct (same_coord x y r) eqn:E; simpl.
    + unfold same_coord in *; simpl. rewrite E. reflexivity.
    + rewrite E. exact IH.
Qed.

Lemma cell_at_upsert_other x y color ts t x' y' :
  (x', y') <> (x, y) ->
  cell_at x' y' (upsert x y color ts t) = cell_at x' y' t.
Proof.
  intros Hne. unfold cell_at. induction t as [|r t IH]; cbn [upsert find].
  - assert (same_coord x' y'
              {| row_x := x; row_y := y; row_color := color;
                 row_last_modified := ts |} = false) as ->; [| reflexivity ].
    apply same_coord_false. unfold coord; simpl. congruence.
  - destruct (same_coord x y r) eqn:E; cbn [find].
    + apply same_coord_spec in E.
      change (same_coord x' y'
                {| row_x := row_x r; row_y := row_y r; row_color := color;
                   row_last_modified := ts |})
        with (same_coord x' y' r).
      assert (same_coord x' y' r = false) as ->; [| reflexivity ].
      apply same_coord_false. congruence.
    + destruct (same_coord x' y' r); [ reflexivity | exact IH ].
Qed.

Lemma upsert_idempotent x y color ts t :
  upsert x y color ts (upsert x y color ts t) = upsert x y color ts t.
Proof.
  induction t as [|r t IH]; simpl.
  - unfold same_coord; simpl. rewrite !Z.eqb_refl. reflexivity.
  - destruct (same_coord x y r) eqn:E; simpl.
    + unfold same_coord in *; simpl. rewrite E. reflexivity.
    + rewrite E, IH. reflexivity.
Qed.

Lemma upsert_overwrites x y c1 ts1 c2 ts2 t :
  upsert x y c2 ts2 (upsert x y c1 ts1 t) = upsert x y c2 ts2 t.
Proof.
  induction t as [|r t IH]; simpl.
  - unfold same_coord; simpl. rewrite !Z.eqb_refl. reflexivity.
  - destruct (same_coord x y r) eqn:E; simpl.
    + unfold same_coord in *; simpl. rewrite E. reflexivity.
    + rewrite E, IH. reflexivity.
Qed.

Lemma select_upsert_same_color x y color ts1 ts2 t :
  select_pixels (upsert x y color ts2 (upsert x y color ts1 t))
  = select_pixels (upsert x y color ts1 t).
Proof.
  unfold select_pixels. induction t as [|r t IH]; simpl.
  - unfold same_coord; simpl. rewrite !Z.eqb_refl. reflexivity.
  - destruct (same_coord x y r) eqn:E; simpl.
    + unfold same_coord in *; simpl. rewrite E. reflexivity.
    + rewrite E. simpl. rewrite IH. reflexivity.
Qed.

Lemma length_upsert_again x y c1 ts1 c2 ts2 t :
  length (upsert x y c2 ts2 (upsert x y c1 ts1 t))
  = length (upsert x y c1 ts1 t).
Proof.
  induction t as [|r t IH]; simpl.
  - unfold same_coord; simpl. rewrite !Z.eqb_refl. reflexivity.
  - destruct (same_coord x y r) eqn:E; simpl.
    + unfold same_coord in *; simpl. rewrite E. reflexivity.
    + rewrite E. simpl. rewrite IH. reflexivity.
Qed.

Lemma in_bounds_spec cfg x y :
  ((int_value x <? 0) || (int_value x >=? CANVAS_W cfg)
   || (int_value y <? 0) || (int_value y >=? CANVAS_H cfg)) = false
  <-> in_bounds cfg x y.
Proof.
  unfold in_bounds. rewrite !orb_false_iff.
  rewrite !Z.ltb_ge, !Z.geb_leb, !Z.leb_gt. lia.
Qed.

(** Turns the propositions of the specification into the tests of the
    handlers and splits on every test. *)
Ltac by_tests :=
  rewrite <- ?guards_pass_spec, <- ?Number_isInteger_spec,
    <- ?validColor_spec, <- ?in_bounds_spec, <- ?cooldown_test_spec;
  unfold guards_pass;
  repeat match goal with
         | |- context [Number_isInteger ?v] => destruct (Number_isInteger v)
         | |- context [validColor ?v] => destruct (validColor v)
         | |- context [(?a <? 0) || ?b || ?c || ?d] =>
             destruct ((a <? 0) || b || c || d)
         | |- context [?a <? PLACE_COOLDOWN_MS ?cfg] =>
             destruct (a <? PLACE_COOLDOWN_MS cfg)
         end;
  simpl.

(** ** The cooldown tables *)

Lemma or_zero_Some t : or_zero (Some t) = t.
Proof. simpl. destruct (Z.eqb_spec t 0); congruence. Qed.

Lemma within_cooldown_after_write cfg (table : gmap string Z) ip ts ts2 :
  within_cooldown cfg (Some (<[ip := ts]> table)) ip ts2
  <-> ts2 - ts < PLACE_COOLDOWN_MS cfg.
Proof.
  unfold within_cooldown, lastAcceptedAt. rewrite lookup_insert_eq.
  reflexivity.
Qed.

Lemma admitted_iff cfg table ip ts :
  PLACE_COOLDOWN_MS cfg <= ts ->
  ~ within_cooldown cfg table ip ts
  <-> lastAcceptedAt table ip = None
      \/ exists last, lastAcceptedAt table ip = Some last
                      /\ PLACE_COOLDOWN_MS cfg <= ts - last.
Proof.
  intros Hclock. unfold within_cooldown.
  destruct (lastAcceptedAt table ip) as [last|]; simpl; split.
  - intros H. right. exists last. split; [ reflexivity | lia ].
  - intros [H | (l & [= <-] & H)]; [ discriminate | lia ].
  - auto.
  - intros _. lia.
Qed.

Lemma post_api_place_denied_iff cfg ip msg x y color ts db_err s :
  destructure msg = Some (x, y, color) ->
  structurally_valid cfg x y color ->
  verdict_of (exit (post_api_place cfg ip msg ts db_err s)) = Rejected Cooldown
  <-> within_cooldown cfg (_placeCooldown s) ip ts.
Proof.
  intros Hd Hv. apply guards_pass_spec in Hv.
  rewrite (post_api_place_valid _ _ _ _ _ _ _ _ _ Hd Hv).
  rewrite <- cooldown_test_spec. cbv zeta.
  destruct (_ <? _); simpl; [ tauto |].
  destruct db_err; simpl; split; discriminate.
Qed.

Lemma socket_on_place_denied_iff cfg sock msg x y color ts db_err s :
  destructure msg = Some (x, y, color) ->
  structurally_valid cfg x y color ->
  verdict_of (exit (socket_on_place cfg sock msg ts db_err s))
  = Rejected Cooldown
  <-> within_cooldown cfg (_socketCooldown s) (handshake_address sock) ts.
Proof.
  intros Hd Hv. apply guards_pass_spec in Hv.
  rewrite (socket_on_place_valid _ _ _ _ _ _ _ _ _ Hd Hv).
  rewrite <- cooldown_test_spec. cbv zeta.
  destruct (_ <? _); simpl; [ tauto |].
  destruct db_err; simpl; split; discriminate.
Qed.

Lemma post_api_place_denied cfg ip msg x y color ts db_err s :
  destructure msg = Some (x, y, color) ->
  structurally_valid cfg x y color ->
  within_cooldown cfg (_placeCooldown s) ip ts ->
  post_api_place cfg ip msg ts db_err s
  = {| st := {| pixels := pixels s;
                _placeCooldown := Some (default ∅ (_placeCooldown s));
                _socketCooldown := _socketCooldown s |};
       exit := CooldownDenied;
       reply := json_reply 429 (error_json "cooldown");
       emitted := [] |}.
Proof.
  intros Hd Hv Hw. apply guards_pass_spec in Hv.
  rewrite (post_api_place_valid _ _ _ _ _ _ _ _ _ Hd Hv). cbv zeta.
  apply cooldown_test_spec in Hw. rewrite Hw. reflexivity.
Qed.

Lemma post_api_place_admitted cfg ip msg x y color ts db_err s :
  destructure msg = Some (x, y, color) ->
  structurally_valid cfg x y color ->
  ~ within_cooldown cfg (_placeCooldown s) ip ts ->
  post_api_place cfg ip msg ts db_err s
  = {| st := {| pixels :=
                  if db_err then pixels s
                  else upsert (int_value x) (int_value y)
                         (string_value color)
                         ts (pixels s);
                _placeCooldown :=
                  Some (<[ip := ts]> (default ∅ (_placeCooldown s)));
                _socketCooldown := _socketCooldown s |};
       exit := if db_err then DbError else Done;
       reply := if db_err then json_reply 500 (error_json "db")
                else json_reply 200 (VObj [("ok", VBool true)]);
       emitted := if db_err then [] else [pixel_event x y color] |}.
Proof.
  intros Hd Hv Hw. apply guards_pass_spec in Hv.
  rewrite (post_api_place_valid _ _ _ _ _ _ _ _ _ Hd Hv). cbv zeta.
  apply cooldown_test_false in Hw. rewrite Hw. reflexivity.
Qed.

Lemma socket_on_place_denied cfg sock msg x y color ts db_err s :
  destructure msg = Some (x, y, color) ->
  structurally_valid cfg x y color ->
  within_cooldown cfg (_socketCooldown s) (handshake_address sock) ts ->
  socket_on_place cfg sock msg ts db_err s
  = {| st := {| pixels := pixels s;
                _placeCooldown := _placeCooldown s;
                _socketCooldown := Some (default ∅ (_socketCooldown s)) |};
       exit := CooldownDenied;
       reply := None;
       emitted := [placeDenied_event sock] |}.
Proof.
  intros Hd Hv Hw. apply guards_pass_spec in Hv.
  rewrite (socket_on_place_valid _ _ _ _ _ _ _ _ _ Hd Hv). cbv zeta.
  apply cooldown_test_spec in Hw. rewrite Hw. reflexivity.
Qed.

Lemma socket_on_place_admitted cfg sock msg x y color ts db_err s :
  destructure msg = Some (x, y, color) ->
  structurally_valid cfg x y color ->
  ~ within_cooldown cfg (_socketCooldown s) (handshake_address sock) ts ->
  socket_on_place cfg sock msg ts db_err s
  = {| st := {| pixels :=
                  if db_err then pixels s
                  else upsert (int_value x) (int_value y)
                         (string_value color)
                         ts (pixels s);
                _placeCooldown := _placeCooldown s;
                _socketCooldown :=
                  Some (<[handshake_address sock := ts]>
                          (default ∅ (_socketCooldown s))) |};
       exit := if db_err then DbError else Done;
       reply := None;
       emitted := if db_err then [] else [pixel_event x y color] |}.
Proof.
  intros Hd Hv Hw. apply guards_pass_spec in Hv.
  rewrite (socket_on_place_valid _ _ _ _ _ _ _ _ _ Hd Hv). cbv zeta.
  apply cooldown_test_false in Hw. rewrite Hw. reflexivity.
Qed.

Lemma within_cooldown_dec cfg table ip ts :
  within_cooldown cfg table ip ts \/ ~ within_cooldown cfg table ip ts.
Proof. unfold within_cooldown. lia. Qed.

Lemma structurally_valid_dec cfg x y color :
  structurally_valid cfg x y color \/ ~ structurally_valid cfg x y color.
Proof.
  rewrite <- guards_pass_spec. destruct (guards_pass cfg x y color); auto.
Qed.

Lemma post_api_place_run cfg ip msg ts db_err s :
  place_run cfg (_placeCooldown s) ip msg ts
    (exit (post_api_place cfg ip msg ts db_err s)).
Proof.
  destruct (destructure msg) as [[[x y] color]|] eqn:Hd.
  - destruct (structurally_valid_dec cfg x y color) as [Hv | Hv].
    + destruct (within_cooldown_dec cfg (_placeCooldown s) ip ts) as [Hw | Hw].
      * rewrite (post_api_place_denied _ _ _ _ _ _ _ _ _ Hd Hv Hw).
        eapply run_denied; eassumption.
      * rewrite (post_api_place_admitted _ _ _ _ _ _ _ _ _ Hd Hv Hw).
        eapply run_admitted; try eassumption.
        destruct db_err; simpl; auto.
    + pose proof Hv as Hg. apply guards_fail_spec in Hg.
      destruct (post_api_place_invalid cfg ip msg x y color ts db_err s Hd Hg)
        as (e & why & -> & He).
      eapply run_invalid; eassumption.
  - rewrite (post_api_place_throws _ _ _ _ _ _ Hd). now apply run_threw.
Qed.

Lemma socket_on_place_run cfg sock msg ts db_err s :
  place_run cfg (_socketCooldown s) (handshake_address sock) msg ts
    (exit (socket_on_place cfg sock msg ts db_err s)).
Proof.
  destruct (destructure msg) as [[[x y] color]|] eqn:Hd.
  - destruct (structurally_valid_dec cfg x y color) as [Hv | Hv].
    + destruct (within_cooldown_dec cfg (_socketCooldown s)
                  (handshake_address sock) ts) as [Hw | Hw].
      * rewrite (socket_on_place_denied _ _ _ _ _ _ _ _ _ Hd Hv Hw).
        eapply run_denied; eassumption.
      * rewrite (socket_on_place_admitted _ _ _ _ _ _ _ _ _ Hd Hv Hw).
        eapply run_admitted; try eassumption.
        destruct db_err; simpl; auto.
    + pose proof Hv as Hg. apply guards_fail_spec in Hg.
      destruct (socket_on_place_invalid cfg sock msg x y color ts db_err s
                  Hd Hg) as (e & -> & He).
      eapply run_invalid; eassumption.
  - rewrite (socket_on_place_throws _ _ _ _ _ _ Hd). now apply run_threw.
Qed.

(** What a rejection for invalid input or cooldown leaves behind, on
    either path: the table of pixels untouched, every rate-limit entry as it
    was, and at most a [placeDenied] to the sender. *)
Lemma post_api_place_rejected cfg ip msg ts db_err s :
  verdict_of (exit (post_api_place cfg ip msg ts db_err s))
    = Rejected InvalidInput
  \/ verdict_of (exit (post_api_place cfg ip msg ts db_err s))
    = Rejected Cooldown ->
  pixels (st (post_api_place cfg ip msg ts db_err s)) = pixels s
  /\ emitted (post_api_place cfg ip msg ts db_err s) = []
  /\ _socketCooldown (st (post_api_place cfg ip msg ts db_err s))
     = _socketCooldown s
  /\ (forall a, lastAcceptedAt
                  (_placeCooldown (st (post_api_place cfg ip msg ts db_err s)))
                  a
                = lastAcceptedAt (_placeCooldown s) a)
  /\ (verdict_of (exit (post_api_place cfg ip msg ts db_err s))
      = Rejected InvalidInput ->
      st (post_api_place cfg ip msg ts db_err s) = s).
Proof.
  destruct (destructure msg) as [[[x y] color]|] eqn:Hd.
  - destruct (structurally_valid_dec cfg x y color) as [Hv | Hv].
    + destruct (within_cooldown_dec cfg (_placeCooldown s) ip ts) as [Hw | Hw].
      * rewrite (post_api_place_denied _ _ _ _ _ _ _ _ _ Hd Hv Hw). simpl.
        intros _. repeat split; try discriminate.
        intros a. destruct (_placeCooldown s); simpl; [ reflexivity |].
        apply lookup_empty.
      * rewrite (post_api_place_admitted _ _ _ _ _ _ _ _ _ Hd Hv Hw).
        destruct db_err; simpl; intros [H | H]; discriminate H.
    + apply guards_fail_spec in Hv.
      destruct (post_api_place_invalid cfg ip msg x y color ts db_err s Hd Hv)
        as (e & why & -> & He).
      simpl. auto.
  - rewrite (post_api_place_throws _ _ _ _ _ _ Hd). simpl. auto.
Qed.

Lemma socket_on_place_rejected cfg sock msg ts db_err s :
  verdict_of (exit (socket_on_place cfg sock msg ts db_err s))
    = Rejected InvalidInput
  \/ verdict_of (exit (socket_on_place cfg sock msg ts db_err s))
    = Rejected Cooldown ->
  pixels (st (socket_on_place cfg sock msg ts db_err s)) = pixels s
  /\ (emitted (socket_on_place cfg sock msg ts db_err s) = []
      \/ emitted (socket_on_place cfg sock msg ts db_err s)
         = [placeDenied_event sock])
  /\ _placeCooldown (st (socket_on_place cfg sock msg ts db_err s))
     = _placeCooldown s
  /\ (forall a, lastAcceptedAt
                  (_socketCooldown
                     (st (socket_on_place cfg sock msg ts db_err s))) a
                = lastAcceptedAt (_socketCooldown s) a)
  /\ (verdict_of (exit (socket_on_place cfg sock msg ts db_err s))
      = Rejected InvalidInput ->
      st (socket_on_place cfg sock msg ts db_err s) = s
      /\ emitted (socket_on_place cfg sock msg ts db_err s) = []).
Proof.
  destruct (destructure msg) as [[[x y] color]|] eqn:Hd.
  - destruct (structurally_valid_dec cfg x y color) as [Hv | Hv].
    + destruct (within_cooldown_dec cfg (_socketCooldown s)
                  (handshake_address sock) ts) as [Hw | Hw].
      * rewrite (socket_on_place_denied _ _ _ _ _ _ _ _ _ Hd Hv Hw). simpl.
        intros _. repeat split; try discriminate; auto.
        intros a. destruct (_socketCooldown s); simpl; [ reflexivity |].
        apply lookup_empty.
      * rewrite (socket_on_place_admitted _ _ _ _ _ _ _ _ _ Hd Hv Hw).
        destruct db_err; simpl; intros [H | H]; discriminate H.
    + apply guards_fail_spec in Hv.
      destruct (socket_on_place_invalid cfg sock msg x y color ts db_err s
                  Hd Hv) as (e & -> & He).
      simpl. auto 10.
  - rewrite (socket_on_place_throws _ _ _ _ _ _ Hd). simpl. auto 10.
Qed.

(** ** What a step does to the [pixels] table *)

Lemma structurally_valid_shape cfg x y color :
  structurally_valid cfg x y color ->
  exists xi yi c, x = VInt xi /\ y = VInt yi /\ color = VStr c.
Proof.
  intros ([xi ->] & [yi ->] & _ & (ds & -> & _)).
  exists xi, yi, (String "#" (string_of_list_ascii ds)). auto.
Qed.

Lemma post_api_place_pixels cfg ip msg ts db_err s :
  (emitted (post_api_place cfg ip msg ts db_err s) = []
   /\ pixels (st (post_api_place cfg ip msg ts db_err s)) = pixels s)
  \/ (exists x y c,
        accepted_write (post_api_place cfg ip msg ts db_err s) x y c
        /\ pixels (st (post_api_place cfg ip msg ts db_err s))
           = upsert x y c ts (pixels s)).
Proof.
  destruct (destructure msg) as [[[x y] color]|] eqn:Hd.
  - destruct (structurally_valid_dec cfg x y color) as [Hv | Hv].
    + destruct (within_cooldown_dec cfg (_placeCooldown s) ip ts) as [Hw | Hw].
      * rewrite (post_api_place_denied _ _ _ _ _ _ _ _ _ Hd Hv Hw). auto.
      * rewrite (post_api_place_admitted _ _ _ _ _ _ _ _ _ Hd Hv Hw).
        destruct db_err; simpl; [ auto |].
        destruct (structurally_valid_shape _ _ _ _ Hv)
          as (xi & yi & c & -> & -> & ->).
        right. exists xi, yi, c. unfold accepted_write. simpl. auto.
    + apply guards_fail_spec in Hv.
      destruct (post_api_place_invalid cfg ip msg x y color ts db_err s Hd Hv)
        as (e & why & -> & He).
      auto.
  - rewrite (post_api_place_throws _ _ _ _ _ _ Hd). auto.
Qed.

Lemma socket_on_place_pixels cfg sock msg ts db_err s :
  ((emitted (socket_on_place cfg sock msg ts db_err s) = []
    \/ emitted (socket_on_place cfg sock msg ts db_err s)
       = [placeDenied_event sock])
   /\ pixels (st (socket_on_place cfg sock msg ts db_err s)) = pixels s)
  \/ (exists x y c,
        accepted_write (socket_on_place cfg sock msg ts db_err s) x y c
        /\ pixels (st (socket_on_place cfg sock msg ts db_err s))
           = upsert x y c ts (pixels s)).
Proof.
  destruct (destructure msg) as [[[x y] color]|] eqn:Hd.
  - destruct (structurally_valid_dec cfg x y color) as [Hv | Hv].
    + destruct (within_cooldown_dec cfg (_socketCooldown s)
                  (handshake_address sock) ts) as [Hw | Hw].
      * rewrite (socket_on_place_denied _ _ _ _ _ _ _ _ _ Hd Hv Hw). auto.
      * rewrite (socket_on_place_admitted _ _ _ _ _ _ _ _ _ Hd Hv Hw).
        destruct db_err; simpl; [ auto |].
        destruct (structurally_valid_shape _ _ _ _ Hv)
          as (xi & yi & c & -> & -> & ->).
        right. exists xi, yi, c. unfold accepted_write. simpl. auto.
    + apply guards_fail_spec in Hv.
      destruct (socket_on_place_invalid cfg sock msg x y color ts db_err s
                  Hd Hv) as (e & -> & He).
      auto.
  - rewrite (socket_on_place_throws _ _ _ _ _ _ Hd). auto.
Qed.

Lemma handle_pixels cfg req e s :
  pixels (st (handle cfg req e s)) = pixels s
  \/ exists x y c,
       accepted_write (handle cfg req e s) x y c
       /\ pixels (st (handle cfg req e s)) = upsert x y c (now e) (pixels s).
Proof.
  destruct req as [| ip msg | sock | sock msg]; simpl.
  - unfold get_api_pixels. destruct (db_fails e); auto.
  - destruct (post_api_place_pixels cfg ip msg (now e) (db_fails e) s)
      as [[_ H] | H]; auto.
  - unfold socket_on_getPixels. destruct (db_fails e); auto.
  - destruct (socket_on_place_pixels cfg sock msg (now e) (db_fails e) s)
      as [[_ H] | H]; auto.
Qed.

Lemma handle_accepted_write cfg req e s x y c :
  accepted_write (handle cfg req e s) x y c ->
  pixels (st (handle cfg req e s)) = upsert x y c (now e) (pixels s).
Proof.
  intros [_ Hem].
  destruct req as [| ip msg | sock | sock msg]; simpl in *.
  - unfold get_api_pixels in Hem. destruct (db_fails e); discriminate Hem.
  - destruct (post_api_place_pixels cfg ip msg (now e) (db_fails e) s)
      as [[H _] | (x' & y' & c' & [_ H] & Hpix)]; rewrite H in Hem.
    + discriminate Hem.
    + injection Hem as <- <- <-. exact Hpix.
  - unfold socket_on_getPixels in Hem. destruct (db_fails e); discriminate Hem.
  - destruct (socket_on_place_pixels cfg sock msg (now e) (db_fails e) s)
      as [[[H | H] _] | (x' & y' & c' & [_ H] & Hpix)]; rewrite H in Hem.
    + discriminate Hem.
    + discriminate Hem.
    + injection Hem as <- <- <-. exact Hpix.
Qed.

Lemma handle_one_row_per_coord cfg req e s :
  one_row_per_coord (pixels s) ->
  one_row_per_coord (pixels (st (handle cfg req e s))).
Proof.
  intros Hinv.
  destruct (handle_pixels cfg req e s) as [-> | (x & y & c & _ & ->)].
  - exact Hinv.
  - now apply upsert_one_row_per_coord.
Qed.

Lemma run_one_row_per_coord cfg reqs s :
  one_row_per_coord (pixels s) ->
  one_row_per_coord (pixels (run cfg reqs s)).
Proof.
  revert s. induction reqs as [| [req e] reqs IH]; intros s Hinv; simpl.
  - exact Hinv.
  - apply IH. now apply handle_one_row_per_coord.
Qed.

Lemma one_row_at_most x y t :
  one_row_per_coord t -> (length (List.filter (same_coord x y) t) <= 1)%nat.
Proof.
  unfold one_row_per_coord. induction t as [|r t IH]; simpl; intros H.
  - lia.
  - apply NoDup_cons in H as [Hr Ht].
    destruct (same_coord x y r) eqn:E; [| auto ].
    apply same_coord_spec in E.
    assert (List.filter (same_coord x y) t = []) as ->; [| simpl; lia ].
    destruct (List.filter (same_coord x y) t) as [|r' l] eqn:F; [ reflexivity |].
    exfalso. apply Hr.
    assert (In r' (List.filter (same_coord x y) t)) as Hin
      by (rewrite F; left; reflexivity).
    apply filter_In in Hin as [Hin Hsame].
    apply same_coord_spec in Hsame.
    apply list_elem_of_In. rewrite E, <- Hsame. now apply in_map.
Qed.

Lemma place_run_done cfg table ip msg ts x y color :
  place_run cfg table ip msg ts Done ->
  destructure msg = Some (x, y, color) ->
  structurally_valid cfg x y color /\ ~ within_cooldown cfg table ip ts.
Proof.
  intros Hrun Hd. inversion Hrun as
    [ Hn | x' y' c' e Hd' Hv He | x' y' c' Hd' Hv Hw
    | x' y' c' e Hd' Hv Hw He ]; subst.
  - discriminate He.
  - rewrite Hd in Hd'. injection Hd' as <- <- <-. auto.
Qed.

Lemma sample_request_valid :
  structurally_valid default_config (VInt 10) (VInt 20) (VStr "#ff0000").
Proof. apply guards_pass_spec. reflexivity. Qed.

Lemma sample_actor_fresh table_of :
  table_of = _placeCooldown \/ table_of = _socketCooldown ->
  ~ within_cooldown default_config (table_of initial_state) sample_ip
      sample_now.
Proof.
  intros [-> | ->]; unfold within_cooldown; vm_compute; discriminate.
Qed.

(** * The claims *)

(** C1, refuted as stated: the body [{x: -1, y: 0, color: "#ffffff"}] has
    integer coordinates with [x] out of bounds, and the reply is
    [400 {error: "out of bounds"}], not [400 {error: "invalid coords"}]. *)
Lemma C1_out_of_bounds_has_its_own_error :
  is_integer (VInt (-1)) /\ is_integer (VInt 0)
  /\ ~ in_bounds default_config (VInt (-1)) (VInt 0)
  /\ reply (post_api_place default_config sample_ip white_left_of_canvas
              sample_now false initial_state)
     = json_reply 400 (error_json "out of bounds")
  /\ reply (post_api_place default_config sample_ip white_left_of_canvas
              sample_now false initial_state)
     <> json_reply 400 (error_json "invalid coords").
Proof.
  repeat split; try (eexists; reflexivity).
  - unfold in_bounds; simpl. lia.
  - vm_compute. discriminate.
Qed.

(** C1, as amended: the reply of [POST /api/place] is
    [400 {error: "invalid coords"}] when [x] or [y] is not an integer,
    [400 {error: "out of bounds"}] when both are integers outside
    [[0,W) x [0,H)], [400 {error: "invalid color"}] when the color fails the
    pattern, [429 {error: "cooldown"}] when the actor is within the cooldown
    window of the REST table, [500 {error: "db"}] on a storage failure and
    [200 {ok: true}], with the [pixel] broadcast, on success. *)
Theorem C1_rest_place_reply cfg ip msg x y color ts db_err s :
  destructure msg = Some (x, y, color) ->
  let r := post_api_place cfg ip msg ts db_err s in
  (~ (is_integer x /\ is_integer y) ->
     reply r = json_reply 400 (error_json "invalid coords"))
  /\ (is_integer x -> is_integer y -> ~ in_bounds cfg x y ->
     reply r = json_reply 400 (error_json "out of bounds"))
  /\ (is_integer x -> is_integer y -> in_bounds cfg x y ->
      ~ canonical_color color ->
     reply r = json_reply 400 (error_json "invalid color"))
  /\ (structurally_valid cfg x y color ->
      within_cooldown cfg (_placeCooldown s) ip ts ->
     reply r = json_reply 429 (error_json "cooldown"))
  /\ (structurally_valid cfg x y color ->
      ~ within_cooldown cfg (_placeCooldown s) ip ts -> db_err = true ->
     reply r = json_reply 500 (error_json "db"))
  /\ (structurally_valid cfg x y color ->
      ~ within_cooldown cfg (_placeCooldown s) ip ts -> db_err = false ->
     reply r = json_reply 200 (VObj [("ok", VBool true)])
     /\ emitted r = [pixel_event x y color]).
Proof.
  intros Hd r. subst r. unfold post_api_place. rewrite Hd.
  by_tests; destruct db_err; simpl; intuition congruence.
Qed.

Lemma C1_rest_place_reply_witness :
  destructure red_10_20 = Some (VInt 10, VInt 20, VStr "#ff0000")
  /\ (structurally_valid default_config (VInt 10) (VInt 20) (VStr "#ff0000") ->
      ~ within_cooldown default_config (_placeCooldown initial_state)
          sample_ip sample_now ->
      false = false ->
      reply (post_api_place default_config sample_ip red_10_20 sample_now
               false initial_state)
      = json_reply 200 (VObj [("ok", VBool true)])
      /\ emitted (post_api_place default_config sample_ip red_10_20 sample_now
                    false initial_state)
         = [pixel_event (VInt 10) (VInt 20) (VStr "#ff0000")]).
Proof.
  split; [ reflexivity |].
  apply (C1_rest_place_reply default_config sample_ip red_10_20
           (VInt 10) (VInt 20) (VStr "#ff0000") sample_now false initial_state
           eq_refl).
Defined.

(** C2: the code at the failing input.  An actor whose write was just
    accepted on the REST path places again one millisecond later.  Sent
    again over REST the second request is denied for cooldown; sent over
    the actor's socket it is accepted and stored, because the socket
    handler consults [_socketCooldown], where the REST handler recorded
    nothing. *)
Lemma C2_rest_then_socket_is_not_denied :
  exit (post_api_place default_config sample_ip red_10_20 sample_now false
          initial_state) = Done
  /\ handshake_address sample_socket = sample_ip
  /\ (sample_now + 1) - sample_now < PLACE_COOLDOWN_MS default_config
  /\ exit (post_api_place default_config sample_ip green_11_20
             (sample_now + 1) false
             (st (post_api_place default_config sample_ip red_10_20
                    sample_now false initial_state))) = CooldownDenied
  /\ exit (socket_on_place default_config sample_socket green_11_20
             (sample_now + 1) false
             (st (post_api_place default_config sample_ip red_10_20
                    sample_now false initial_state))) = Done
  /\ cell_at 11 20
       (pixels (st (socket_on_place default_config sample_socket green_11_20
                      (sample_now + 1) false
                      (st (post_api_place default_config sample_ip red_10_20
                             sample_now false initial_state)))))
     = Some ("#00ff00", sample_now + 1).
Proof.
  repeat split; vm_compute; congruence.
Qed.

(** The cooldown as each path applies it, on its own table.  A write on
    one path leaves the table of the other as it was.  On a path, at any
    time not below the cooldown, an actor is admitted exactly when it has no
    entry in the table of that path or its entry is at least the cooldown
    old; and after an admitted call, a valid call of the same actor on the
    same path within the cooldown is denied, whatever its coordinate. *)
Theorem cooldown_within_one_path cfg ip sock msg x y color ts db_err s :
  destructure msg = Some (x, y, color) ->
  structurally_valid cfg x y color ->
  PLACE_COOLDOWN_MS cfg <= ts ->
  let r := post_api_place cfg ip msg ts db_err s in
  let w := socket_on_place cfg sock msg ts db_err s in
  (verdict_of (exit r) <> Rejected Cooldown
   <-> lastAcceptedAt (_placeCooldown s) ip = None
       \/ exists last, lastAcceptedAt (_placeCooldown s) ip = Some last
                       /\ PLACE_COOLDOWN_MS cfg <= ts - last)
  /\ (verdict_of (exit w) <> Rejected Cooldown
      <-> lastAcceptedAt (_socketCooldown s) (handshake_address sock) = None
          \/ exists last,
               lastAcceptedAt (_socketCooldown s) (handshake_address sock)
               = Some last
               /\ PLACE_COOLDOWN_MS cfg <= ts - last)
  /\ _socketCooldown (st r) = _socketCooldown s
  /\ _placeCooldown (st w) = _placeCooldown s
  /\ (forall msg2 x2 y2 color2 ts2 db_err2,
        destructure msg2 = Some (x2, y2, color2) ->
        structurally_valid cfg x2 y2 color2 ->
        verdict_of (exit r) <> Rejected Cooldown ->
        ts2 - ts < PLACE_COOLDOWN_MS cfg ->
        verdict_of (exit (post_api_place cfg ip msg2 ts2 db_err2 (st r)))
        = Rejected Cooldown
        /\ reply (post_api_place cfg ip msg2 ts2 db_err2 (st r))
           = json_reply 429 (error_json "cooldown"))
  /\ (forall sock2 msg2 x2 y2 color2 ts2 db_err2,
        handshake_address sock2 = handshake_address sock ->
        destructure msg2 = Some (x2, y2, color2) ->
        structurally_valid cfg x2 y2 color2 ->
        verdict_of (exit w) <> Rejected Cooldown ->
        ts2 - ts < PLACE_COOLDOWN_MS cfg ->
        verdict_of (exit (socket_on_place cfg sock2 msg2 ts2 db_err2 (st w)))
        = Rejected Cooldown
        /\ emitted (socket_on_place cfg sock2 msg2 ts2 db_err2 (st w))
           = [placeDenied_event sock2]).
Proof.
  intros Hd Hv Hclock r w. subst r w.
  pose proof (post_api_place_denied_iff cfg ip msg x y color ts db_err s Hd Hv)
    as Hrest.
  pose proof (socket_on_place_denied_iff cfg sock msg x y color ts db_err s
                Hd Hv) as Hsock.
  split; [| split; [| split; [| split; [| split ] ] ] ].
  - rewrite <- (admitted_iff _ _ _ _ Hclock). tauto.
  - rewrite <- (admitted_iff _ _ _ _ Hclock). tauto.
  - destruct (within_cooldown_dec cfg (_placeCooldown s) ip ts) as [Hw | Hw].
    + rewrite (post_api_place_denied _ _ _ _ _ _ _ _ _ Hd Hv Hw). reflexivity.
    + rewrite (post_api_place_admitted _ _ _ _ _ _ _ _ _ Hd Hv Hw).
      reflexivity.
  - destruct (within_cooldown_dec cfg (_socketCooldown s)
                (handshake_address sock) ts) as [Hw | Hw].
    + rewrite (socket_on_place_denied _ _ _ _ _ _ _ _ _ Hd Hv Hw).
      reflexivity.
    + rewrite (socket_on_place_admitted _ _ _ _ _ _ _ _ _ Hd Hv Hw).
      reflexivity.
  - intros msg2 x2 y2 color2 ts2 db_err2 Hd2 Hv2 Hadm Hsoon.
    assert (~ within_cooldown cfg (_placeCooldown s) ip ts) as Hw by tauto.
    rewrite (post_api_place_admitted _ _ _ _ _ _ _ _ _ Hd Hv Hw).
    rewrite (post_api_place_denied _ _ _ _ _ _ _ _ _ Hd2 Hv2);
      [ split; reflexivity |].
    apply within_cooldown_after_write. exact Hsoon.
  - intros sock2 msg2 x2 y2 color2 ts2 db_err2 Haddr Hd2 Hv2 Hadm Hsoon.
    assert (~ within_cooldown cfg (_socketCooldown s)
                (handshake_address sock) ts) as Hw by tauto.
    rewrite (socket_on_place_admitted _ _ _ _ _ _ _ _ _ Hd Hv Hw).
    rewrite (socket_on_place_denied _ _ _ _ _ _ _ _ _ Hd2 Hv2);
      [ split; reflexivity |].
    cbn [_socketCooldown]. rewrite Haddr.
    apply within_cooldown_after_write. exact Hsoon.
Qed.

Lemma cooldown_within_one_path_witness :
  destructure red_10_20 = Some (VInt 10, VInt 20, VStr "#ff0000")
  /\ structurally_valid default_config (VInt 10) (VInt 20) (VStr "#ff0000")
  /\ PLACE_COOLDOWN_MS default_config <= sample_now
  /\ (verdict_of (exit (post_api_place default_config sample_ip red_10_20
                          sample_now false initial_state))
      <> Rejected Cooldown
      <-> lastAcceptedAt (_placeCooldown initial_state) sample_ip = None
          \/ exists last,
               lastAcceptedAt (_placeCooldown initial_state) sample_ip
               = Some last
               /\ PLACE_COOLDOWN_MS default_config <= sample_now - last).
Proof.
  assert (structurally_valid default_config (VInt 10) (VInt 20)
            (VStr "#ff0000")) as Hv
    by (apply guards_pass_spec; reflexivity).
  assert (PLACE_COOLDOWN_MS default_config <= sample_now) as Hclock
    by (vm_compute; discriminate).
  split; [ reflexivity |]. split; [ exact Hv |]. split; [ exact Hclock |].
  exact (proj1 (cooldown_within_one_path default_config sample_ip sample_socket
                  red_10_20 (VInt 10) (VInt 20) (VStr "#ff0000") sample_now
                  false initial_state eq_refl Hv Hclock)).
Defined.

(** C3: a [place] request rejected with InvalidInput or Cooldown, on the
    REST path (a 400 or 429 reply) or on the real-time path, leaves the
    [pixels] table as it was and emits no [pixel] broadcast. *)
Theorem C3_rejected_requests_change_nothing cfg ip sock msg ts db_err s :
  let r := post_api_place cfg ip msg ts db_err s in
  let w := socket_on_place cfg sock msg ts db_err s in
  (verdict_of (exit r) = Rejected InvalidInput
   \/ verdict_of (exit r) = Rejected Cooldown ->
   pixels (st r) = pixels s /\ emitted r = [])
  /\ (forall resp, reply r = Some resp ->
        status resp = 400 \/ status resp = 429 ->
        pixels (st r) = pixels s /\ emitted r = [])
  /\ (verdict_of (exit w) = Rejected InvalidInput
      \/ verdict_of (exit w) = Rejected Cooldown ->
      pixels (st w) = pixels s
      /\ forall m, In m (emitted w) ->
           sent_by m <> IoEmit /\ event m <> "pixel")
  /\ (forall x y color,
        destructure msg = Some (x, y, color) ->
        (~ structurally_valid cfg x y color
         \/ within_cooldown cfg (_placeCooldown s) ip ts) ->
        verdict_of (exit r) = Rejected InvalidInput
        \/ verdict_of (exit r) = Rejected Cooldown)
  /\ (forall x y color,
        destructure msg = Some (x, y, color) ->
        (~ structurally_valid cfg x y color
         \/ within_cooldown cfg (_socketCooldown s) (handshake_address sock)
              ts) ->
        verdict_of (exit w) = Rejected InvalidInput
        \/ verdict_of (exit w) = Rejected Cooldown).
Proof.
  intros r w. subst r w. split; [| split; [| split; [| split ] ] ];
    [ | | | intros x y color Hd Hrej | intros x y color Hd Hrej ].
  4: {
    destruct (structurally_valid_dec cfg x y color) as [Hv | Hv].
    - destruct Hrej as [Hn | Hw]; [ contradiction |].
      rewrite (post_api_place_denied _ _ _ _ _ _ _ _ _ Hd Hv Hw). auto.
    - apply guards_fail_spec in Hv.
      destruct (post_api_place_invalid cfg ip msg x y color ts db_err s Hd Hv)
        as (e & why & -> & He).
      auto. }
  4: {
    destruct (structurally_valid_dec cfg x y color) as [Hv | Hv].
    - destruct Hrej as [Hn | Hw]; [ contradiction |].
      rewrite (socket_on_place_denied _ _ _ _ _ _ _ _ _ Hd Hv Hw). auto.
    - apply guards_fail_spec in Hv.
      destruct (socket_on_place_invalid cfg sock msg x y color ts db_err s
                  Hd Hv) as (e & -> & He).
      auto. }
  - intros H. apply post_api_place_rejected in H. tauto.
  - intros resp Hresp Hstatus.
    cut (verdict_of (exit (post_api_place cfg ip msg ts db_err s))
           = Rejected InvalidInput
         \/ verdict_of (exit (post_api_place cfg ip msg ts db_err s))
           = Rejected Cooldown).
    { intros H. apply post_api_place_rejected in H. tauto. }
    revert Hresp.
    destruct (destructure msg) as [[[x y] color]|] eqn:Hd.
    + destruct (structurally_valid_dec cfg x y color) as [Hv | Hv].
      * destruct (within_cooldown_dec cfg (_placeCooldown s) ip ts)
          as [Hw | Hw].
        -- rewrite (post_api_place_denied _ _ _ _ _ _ _ _ _ Hd Hv Hw).
           simpl. auto.
        -- rewrite (post_api_place_admitted _ _ _ _ _ _ _ _ _ Hd Hv Hw).
           destruct db_err; simpl; intros [= <-]; simpl in Hstatus; lia.
      * apply guards_fail_spec in Hv.
        destruct (post_api_place_invalid cfg ip msg x y color ts db_err s
                    Hd Hv) as (e & why & -> & He).
        simpl. auto.
    + rewrite (post_api_place_throws _ _ _ _ _ _ Hd). simpl. auto.
  - intros H. apply socket_on_place_rejected in H.
    destruct H as (Hpix & [-> | ->] & _); split; try exact Hpix.
    + intros m [].
    + intros m [<- | []]. simpl. split; discriminate.
Qed.

(** C4: a [place] request that fails validation or is denied for cooldown
    leaves every rate-limit entry as it was; one that passes validation and
    the cooldown check sets the actor's entry to the current time, and the
    entry stays so when the upsert then fails with StorageFailure. *)
Theorem C4_cooldown_slot cfg ip sock msg ts db_err s :
  let r := post_api_place cfg ip msg ts db_err s in
  let w := socket_on_place cfg sock msg ts db_err s in
  (verdict_of (exit r) = Rejected InvalidInput
   \/ verdict_of (exit r) = Rejected Cooldown ->
   forall a, lastAcceptedAt (_placeCooldown (st r)) a
             = lastAcceptedAt (_placeCooldown s) a)
  /\ (verdict_of (exit w) = Rejected InvalidInput
      \/ verdict_of (exit w) = Rejected Cooldown ->
      forall a, lastAcceptedAt (_socketCooldown (st w)) a
                = lastAcceptedAt (_socketCooldown s) a)
  /\ (forall x y color,
        destructure msg = Some (x, y, color) ->
        structurally_valid cfg x y color ->
        ~ within_cooldown cfg (_placeCooldown s) ip ts ->
        lastAcceptedAt (_placeCooldown (st r)) ip = Some ts
        /\ verdict_of (exit r)
           = (if db_err then Rejected StorageFailure else Accepted))
  /\ (forall x y color,
        destructure msg = Some (x, y, color) ->
        structurally_valid cfg x y color ->
        ~ within_cooldown cfg (_socketCooldown s) (handshake_address sock) ts ->
        lastAcceptedAt (_socketCooldown (st w)) (handshake_address sock)
        = Some ts
        /\ verdict_of (exit w)
           = (if db_err then Rejected StorageFailure else Accepted)).
Proof.
  intros r w. subst r w. split; [| split; [| split ] ].
  - intros H. apply post_api_place_rejected in H. tauto.
  - intros H. apply socket_on_place_rejected in H. tauto.
  - intros x y color Hd Hv Hw.
    rewrite (post_api_place_admitted _ _ _ _ _ _ _ _ _ Hd Hv Hw). simpl.
    rewrite lookup_insert_eq. destruct db_err; auto.
  - intros x y color Hd Hv Hw.
    rewrite (socket_on_place_admitted _ _ _ _ _ _ _ _ _ Hd Hv Hw). simpl.
    rewrite lookup_insert_eq. destruct db_err; auto.
Qed.

Lemma C4_cooldown_slot_witness :
  lastAcceptedAt
    (_placeCooldown
       (st (post_api_place default_config sample_ip red_10_20 sample_now true
              initial_state))) sample_ip
  = Some sample_now
  /\ verdict_of
       (exit (post_api_place default_config sample_ip red_10_20 sample_now
                true initial_state))
     = Rejected StorageFailure.
Proof.
  exact (proj1 (proj2 (proj2
    (C4_cooldown_slot default_config sample_ip sample_socket red_10_20
       sample_now true initial_state)))
    (VInt 10) (VInt 20) (VStr "#ff0000") eq_refl sample_request_valid
    (sample_actor_fresh _placeCooldown (or_introl eq_refl))).
Defined.

(** C5: structural validation passes exactly when [x] and [y] are integers
    with [0 <= x < W] and [0 <= y < H] and the color is a string of ['#']
    and six hexadecimal digits; a failure is InvalidInput, changes no state
    (the rate-limit tables included) and emits nothing; the colors ["red"]
    and ["#ff00"] and [x = -1], [x = W] fail. *)
Theorem C5_structural_validation cfg ip sock msg x y color ts db_err s :
  destructure msg = Some (x, y, color) ->
  let r := post_api_place cfg ip msg ts db_err s in
  let w := socket_on_place cfg sock msg ts db_err s in
  (verdict_of (exit r) <> Rejected InvalidInput
   <-> structurally_valid cfg x y color)
  /\ (verdict_of (exit w) <> Rejected InvalidInput
      <-> structurally_valid cfg x y color)
  /\ (~ structurally_valid cfg x y color ->
      st r = s /\ emitted r = []
      /\ exists why, reply r = json_reply 400 (error_json why))
  /\ (~ structurally_valid cfg x y color ->
      st w = s /\ emitted w = [] /\ reply w = None)
  /\ (color = VStr "red" \/ color = VStr "#ff00"
      \/ x = VInt (-1) \/ x = VInt (CANVAS_W cfg) ->
      ~ structurally_valid cfg x y color).
Proof.
  intros Hd r w. subst r w.
  destruct (structurally_valid_dec cfg x y color) as [Hv | Hv].
  - assert (verdict_of (exit (post_api_place cfg ip msg ts db_err s))
            <> Rejected InvalidInput) as Hr.
    { destruct (within_cooldown_dec cfg (_placeCooldown s) ip ts) as [Hw | Hw].
      - rewrite (post_api_place_denied _ _ _ _ _ _ _ _ _ Hd Hv Hw).
        discriminate.
      - rewrite (post_api_place_admitted _ _ _ _ _ _ _ _ _ Hd Hv Hw).
        destruct db_err; discriminate. }
    assert (verdict_of (exit (socket_on_place cfg sock msg ts db_err s))
            <> Rejected InvalidInput) as Hs.
    { destruct (within_cooldown_dec cfg (_socketCooldown s)
                  (handshake_address sock) ts) as [Hw | Hw].
      - rewrite (socket_on_place_denied _ _ _ _ _ _ _ _ _ Hd Hv Hw).
        discriminate.
      - rewrite (socket_on_place_admitted _ _ _ _ _ _ _ _ _ Hd Hv Hw).
        destruct db_err; discriminate. }
    split; [| split; [| split; [| split ] ] ]; try tauto.
    intros Hbad. clear Hr Hs. destruct Hv as (_ & _ & Hb & Hc).
    destruct Hbad as [-> | [-> | [-> | ->]]].
    + apply validColor_spec in Hc. discriminate Hc.
    + apply validColor_spec in Hc. discriminate Hc.
    + unfold in_bounds in Hb. simpl in Hb. lia.
    + unfold in_bounds in Hb. simpl in Hb. lia.
  - pose proof Hv as Hg. apply guards_fail_spec in Hg.
    destruct (post_api_place_invalid cfg ip msg x y color ts db_err s Hd Hg)
      as (e & why & -> & He).
    destruct (socket_on_place_invalid cfg sock msg x y color ts db_err s Hd Hg)
      as (e' & -> & He').
    simpl. rewrite He, He'.
    split; [| split; [| split; [| split ] ] ]; try tauto; eauto.
Qed.

Lemma C5_structural_validation_witness :
  destructure red_10_20 = Some (VInt 10, VInt 20, VStr "#ff0000")
  /\ (verdict_of (exit (post_api_place default_config sample_ip red_10_20
                          sample_now false initial_state))
      <> Rejected InvalidInput
      <-> structurally_valid default_config (VInt 10) (VInt 20)
            (VStr "#ff0000")).
Proof.
  split; [ reflexivity |].
  exact (proj1 (C5_structural_validation default_config sample_ip
                  sample_socket red_10_20 (VInt 10) (VInt 20)
                  (VStr "#ff0000") sample_now false initial_state eq_refl)).
Defined.

(** C6: [upsert] is idempotent, and on either path re-submitting the same
    [(x, y, color)] once the cooldown of the actor has expired is accepted
    and changes no value of the table: the rows selected are the same, the
    cell keeps its color and only its timestamp moves on to the time of the
    second write. *)
Theorem C6_upsert_idempotent_and_resubmission :
  (forall x y color ts t,
      upsert x y color ts (upsert x y color ts t) = upsert x y color ts t)
  /\ (forall cfg ip msg x y color ts1 ts2 db_err s,
        destructure msg = Some (VInt x, VInt y, VStr color) ->
        exit (post_api_place cfg ip msg ts1 db_err s) = Done ->
        PLACE_COOLDOWN_MS cfg <= ts2 - ts1 ->
        let s1 := st (post_api_place cfg ip msg ts1 db_err s) in
        let r2 := post_api_place cfg ip msg ts2 false s1 in
        accepted_write r2 x y color
        /\ select_pixels (pixels (st r2)) = select_pixels (pixels s1)
        /\ cell_at x y (pixels s1) = Some (color, ts1)
        /\ cell_at x y (pixels (st r2)) = Some (color, ts2)
        /\ (forall x' y', (x', y') <> (x, y) ->
              cell_at x' y' (pixels (st r2)) = cell_at x' y' (pixels s1))
        /\ (0 < PLACE_COOLDOWN_MS cfg -> ts1 < ts2))
  /\ (forall cfg sock msg x y color ts1 ts2 db_err s,
        destructure msg = Some (VInt x, VInt y, VStr color) ->
        exit (socket_on_place cfg sock msg ts1 db_err s) = Done ->
        PLACE_COOLDOWN_MS cfg <= ts2 - ts1 ->
        let s1 := st (socket_on_place cfg sock msg ts1 db_err s) in
        let w2 := socket_on_place cfg sock msg ts2 false s1 in
        accepted_write w2 x y color
        /\ select_pixels (pixels (st w2)) = select_pixels (pixels s1)
        /\ cell_at x y (pixels s1) = Some (color, ts1)
        /\ cell_at x y (pixels (st w2)) = Some (color, ts2)
        /\ (forall x' y', (x', y') <> (x, y) ->
              cell_at x' y' (pixels (st w2)) = cell_at x' y' (pixels s1))
        /\ (0 < PLACE_COOLDOWN_MS cfg -> ts1 < ts2)).
Proof.
  split; [ exact upsert_idempotent | split ].
  - intros cfg ip msg x y color ts1 ts2 db_err s Hd Hdone Hlater s1 r2.
    subst s1 r2.
    pose proof (post_api_place_run cfg ip msg ts1 db_err s) as Hrun.
    rewrite Hdone in Hrun.
    destruct (place_run_done _ _ _ _ _ _ _ _ Hrun Hd) as [Hv Hw].
    revert Hdone.
    rewrite (post_api_place_admitted _ _ _ _ _ _ _ _ _ Hd Hv Hw).
    destruct db_err; [ discriminate |]. intros _.
    rewrite (post_api_place_admitted _ _ _ _ _ _ _ _ _ Hd Hv).
    + unfold accepted_write. cbn [st pixels exit emitted int_value].
      rewrite !cell_at_upsert, select_upsert_same_color.
      repeat split; try reflexivity; try lia.
      intros x' y' Hne. now apply cell_at_upsert_other.
    + cbn [st _placeCooldown]. rewrite within_cooldown_after_write. lia.
  - intros cfg sock msg x y color ts1 ts2 db_err s Hd Hdone Hlater s1 w2.
    subst s1 w2.
    pose proof (socket_on_place_run cfg sock msg ts1 db_err s) as Hrun.
    rewrite Hdone in Hrun.
    destruct (place_run_done _ _ _ _ _ _ _ _ Hrun Hd) as [Hv Hw].
    revert Hdone.
    rewrite (socket_on_place_admitted _ _ _ _ _ _ _ _ _ Hd Hv Hw).
    destruct db_err; [ discriminate |]. intros _.
    rewrite (socket_on_place_admitted _ _ _ _ _ _ _ _ _ Hd Hv).
    + unfold accepted_write. cbn [st pixels exit emitted int_value].
      rewrite !cell_at_upsert, select_upsert_same_color.
      repeat split; try reflexivity; try lia.
      intros x' y' Hne. now apply cell_at_upsert_other.
    + cbn [st _socketCooldown]. rewrite within_cooldown_after_write. lia.
Qed.

Lemma C6_resubmission_witness :
  destructure red_10_20 = Some (VInt 10, VInt 20, VStr "#ff0000")
  /\ exit (post_api_place default_config sample_ip red_10_20 sample_now false
             initial_state) = Done
  /\ PLACE_COOLDOWN_MS default_config <= (sample_now + 5000) - sample_now
  /\ cell_at 10 20
       (pixels
          (st (post_api_place default_config sample_ip red_10_20
                 (sample_now + 5000) false
                 (st (post_api_place default_config sample_ip red_10_20
                        sample_now false initial_state)))))
     = Some ("#ff0000", sample_now + 5000).
Proof.
  assert (PLACE_COOLDOWN_MS default_config <= (sample_now + 5000) - sample_now)
    as Hlater by (vm_compute; discriminate).
  split; [ reflexivity |]. split; [ reflexivity |]. split; [ exact Hlater |].
  exact (proj1 (proj2 (proj2 (proj2
    (proj1 (proj2 C6_upsert_idempotent_and_resubmission)
       default_config sample_ip red_10_20 10 20 "#ff0000" sample_now
       (sample_now + 5000) false initial_state eq_refl eq_refl Hlater))))).
Defined.

(** C7: the [pixels] table never holds two rows for one coordinate, and
    after two accepted writes to a coordinate, one right after the other,
    the cell holds the color and the timestamp of the later write. *)
Theorem C7_one_row_last_write_wins cfg :
  one_row_per_coord (pixels initial_state)
  /\ (forall reqs s,
        one_row_per_coord (pixels s) ->
        one_row_per_coord (pixels (run cfg reqs s))
        /\ forall x y,
             (length (List.filter (same_coord x y) (pixels (run cfg reqs s)))
              <= 1)%nat)
  /\ (forall req1 e1 req2 e2 s x y c1 c2,
        let o1 := handle cfg req1 e1 s in
        let o2 := handle cfg req2 e2 (st o1) in
        accepted_write o1 x y c1 ->
        accepted_write o2 x y c2 ->
        cell_at x y (pixels (st o1)) = Some (c1, now e1)
        /\ cell_at x y (pixels (st o2)) = Some (c2, now e2)
        /\ pixels (st o2) = upsert x y c2 (now e2) (pixels s)
        /\ length (pixels (st o2)) = length (pixels (st o1))).
Proof.
  split; [ apply NoDup_nil; exact I | split ].
  - intros reqs s Hinv.
    pose proof (run_one_row_per_coord cfg reqs s Hinv) as H.
    split; [ exact H |]. intros x y. now apply one_row_at_most.
  - intros req1 e1 req2 e2 s x y c1 c2 o1 o2 H1 H2. subst o1 o2.
    apply handle_accepted_write in H2. rewrite H2.
    apply handle_accepted_write in H1. rewrite H1.
    split; [ apply cell_at_upsert | split; [ apply cell_at_upsert | split ] ].
    + apply upsert_overwrites.
    + apply length_upsert_again.
Qed.

Lemma C7_one_row_last_write_wins_witness :
  accepted_write
    (handle default_config (POST_api_place sample_ip red_10_20)
       {| now := sample_now; db_fails := false |} initial_state)
    10 20 "#ff0000"
  /\ accepted_write
       (handle default_config (On_place sample_socket blue_10_20)
          {| now := sample_now + 1; db_fails := false |}
          (st (handle default_config (POST_api_place sample_ip red_10_20)
                 {| now := sample_now; db_fails := false |} initial_state)))
       10 20 "#0000ff"
  /\ cell_at 10 20
       (pixels
          (st (handle default_config (On_place sample_socket blue_10_20)
                 {| now := sample_now + 1; db_fails := false |}
                 (st (handle default_config
                        (POST_api_place sample_ip red_10_20)
                        {| now := sample_now; db_fails := false |}
                        initial_state)))))
     = Some ("#0000ff", sample_now + 1).
Proof.
  assert (accepted_write
            (handle default_config (POST_api_place sample_ip red_10_20)
               {| now := sample_now; db_fails := false |} initial_state)
            10 20 "#ff0000") as H1 by (split; reflexivity).
  assert (accepted_write
            (handle default_config (On_place sample_socket blue_10_20)
               {| now := sample_now + 1; db_fails := false |}
               (st (handle default_config (POST_api_place sample_ip red_10_20)
                      {| now := sample_now; db_fails := false |}
                      initial_state)))
            10 20 "#0000ff") as H2 by (split; reflexivity).
  split; [ exact H1 | split; [ exact H2 |] ].
  exact (proj1 (proj2
    (proj2 (proj2 (C7_one_row_last_write_wins default_config))
       (POST_api_place sample_ip red_10_20)
       {| now := sample_now; db_fails := false |}
       (On_place sample_socket blue_10_20)
       {| now := sample_now + 1; db_fails := false |}
       initial_state 10 20 "#ff0000" "#0000ff" H1 H2))).
Defined.

(** C8: for a [place] message on the real-time channel, an accepted write
    is broadcast as [pixel {x, y, color}] to every connected client, the
    sender included; a denial for cooldown sends [placeDenied
    {reason: "cooldown"}] to the sender and reaches no other client; invalid
    input sends nothing. *)
Theorem C8_socket_place_messages cfg sock msg ts db_err s clients :
  let w := socket_on_place cfg sock msg ts db_err s in
  (forall x y color,
      destructure msg = Some (x, y, color) ->
      structurally_valid cfg x y color ->
      ~ within_cooldown cfg (_socketCooldown s) (handshake_address sock) ts ->
      db_err = false ->
      verdict_of (exit w) = Accepted
      /\ emitted w = [ {| sent_by := IoEmit; event := "pixel";
                          payload := pixel_json x y color |} ]
      /\ (forall c, In c clients ->
            exists m, In m (emitted w) /\ receives clients c m)
      /\ (In (socket_id sock) clients ->
            exists m, In m (emitted w)
                      /\ receives clients (socket_id sock) m))
  /\ (forall x y color,
        destructure msg = Some (x, y, color) ->
        structurally_valid cfg x y color ->
        within_cooldown cfg (_socketCooldown s) (handshake_address sock) ts ->
        verdict_of (exit w) = Rejected Cooldown
        /\ emitted w = [ {| sent_by := SocketEmit (socket_id sock);
                            event := "placeDenied";
                            payload := VObj [("reason", VStr "cooldown")] |} ]
        /\ (forall m, In m (emitted w) ->
              receives clients (socket_id sock) m)
        /\ (forall c m, In m (emitted w) -> receives clients c m ->
              c = socket_id sock))
  /\ (verdict_of (exit w) = Rejected InvalidInput -> emitted w = []).
Proof.
  intros w. subst w. split; [| split ].
  - intros x y color Hd Hv Hw ->.
    rewrite (socket_on_place_admitted _ _ _ _ _ _ _ _ _ Hd Hv Hw).
    cbn [exit emitted verdict_of].
    split; [ reflexivity | split; [ reflexivity | split ] ].
    + intros c Hc. eexists. split; [ left; reflexivity | exact Hc ].
    + intros Hc. eexists. split; [ left; reflexivity | exact Hc ].
  - intros x y color Hd Hv Hw.
    rewrite (socket_on_place_denied _ _ _ _ _ _ _ _ _ Hd Hv Hw).
    cbn [exit emitted verdict_of].
    split; [ reflexivity | split; [ reflexivity | split ] ].
    + intros m [<- | []]. reflexivity.
    + intros c m [<- | []] Hrec. symmetry. exact Hrec.
  - intros H.
    pose proof (socket_on_place_rejected cfg sock msg ts db_err s (or_introl H))
      as (_ & _ & _ & _ & Hinv).
    apply Hinv. exact H.
Qed.

Lemma C8_socket_place_messages_witness :
  emitted (socket_on_place default_config sample_socket red_10_20 sample_now
             false initial_state)
  = [ {| sent_by := IoEmit; event := "pixel";
         payload := pixel_json (VInt 10) (VInt 20) (VStr "#ff0000") |} ]
  /\ forall c, In c [1%nat; 2%nat; 3%nat] ->
       exists m,
         In m (emitted (socket_on_place default_config sample_socket red_10_20
                          sample_now false initial_state))
         /\ receives [1%nat; 2%nat; 3%nat] c m.
Proof.
  pose proof (proj1
    (C8_socket_place_messages default_config sample_socket red_10_20
       sample_now false initial_state [1%nat; 2%nat; 3%nat])
    (VInt 10) (VInt 20) (VStr "#ff0000") eq_refl sample_request_valid
    (sample_actor_fresh _socketCooldown (or_intror eq_refl)) eq_refl) as H.
  split; [ exact (proj1 (proj2 H)) | exact (proj1 (proj2 (proj2 H))) ].
Defined.

(** C9, refuted as stated: the payload [5] is not an object, yet its
    destructuring throws nothing: the [try] block runs to the first guard,
    where [x] is [undefined], and returns there. *)
Lemma C9_primitive_payload_throws_nothing :
  is_object (VInt 5) = false
  /\ socket_place_try default_config sample_socket (VInt 5) sample_now false
       initial_state
     = Some {| st := initial_state; exit := NotInteger; reply := None;
               emitted := [] |}
  /\ exit (socket_on_place default_config sample_socket (VInt 5) sample_now
             false initial_state)
     <> ThrewTypeError.
Proof.
  split; [ reflexivity | split; [ reflexivity |] ].
  vm_compute. discriminate.
Qed.

(** C9, as amended: a [place] message whose payload is not an object
    changes nothing and sends nothing: the [pixels] table and both
    rate-limit tables are as they were and no client gets a message.  For
    [null] and [undefined] the destructuring throws inside the [try] block
    and the empty [catch] takes it; for any other payload that is not an
    object nothing is thrown: [x], [y] and [color] are [undefined] and the
    handler returns at its first guard. *)
Theorem C9_non_object_payload cfg sock data ts db_err s :
  is_object data = false ->
  let w := socket_on_place cfg sock data ts db_err s in
  st w = s
  /\ emitted w = []
  /\ reply w = None
  /\ verdict_of (exit w) = Rejected InvalidInput
  /\ (data = VNull \/ data = VUndefined ->
      socket_place_try cfg sock data ts db_err s = None
      /\ exit w = ThrewTypeError)
  /\ (data <> VNull -> data <> VUndefined ->
      destructure data = Some (VUndefined, VUndefined, VUndefined)
      /\ socket_place_try cfg sock data ts db_err s
         = Some {| st := s; exit := NotInteger; reply := None;
                   emitted := [] |}
      /\ exit w = NotInteger).
Proof.
  intros Hobj w. subst w.
  destruct data; try discriminate Hobj;
    (split; [ reflexivity | split; [ reflexivity | split; [ reflexivity |
       split; [ reflexivity | split ] ] ] ]);
    try (intros [H | H]; discriminate H);
    try (intros _; split; reflexivity);
    try (intros Hnull Hundef; congruence);
    intros _ _; repeat split; reflexivity.
Qed.

Lemma C9_non_object_payload_witness :
  is_object VNull = false
  /\ st (socket_on_place default_config sample_socket VNull sample_now false
          initial_state) = initial_state
  /\ emitted (socket_on_place default_config sample_socket VNull sample_now
               false initial_state) = [].
Proof.
  split; [ reflexivity |].
  pose proof (C9_non_object_payload default_config sample_socket VNull
                sample_now false initial_state eq_refl) as H.
  split; [ exact (proj1 H) | exact (proj1 (proj2 H)) ].
Defined.

(** C10: [getPixels] on the real-time channel answers the requesting client
    alone: with a [pixels] event that carries every stored row as
    [{x, y, color}] when the read succeeds, with an [error] event of payload
    ["db"] and no [pixels] event when it fails; the state of the server is
    unchanged either way. *)
Theorem C10_getPixels sock db_err s clients :
  let o := socket_on_getPixels sock db_err s in
  st o = s
  /\ (db_err = false ->
      emitted o = [ {| sent_by := SocketEmit (socket_id sock);
                       event := "pixels";
                       payload := VArr (select_pixels (pixels s)) |} ]
      /\ length (select_pixels (pixels s)) = length (pixels s)
      /\ forall r, In r (pixels s) ->
           In (VObj [("x", VInt (row_x r)); ("y", VInt (row_y r));
                     ("color", VStr (row_color r))])
              (select_pixels (pixels s)))
  /\ (db_err = true ->
      emitted o = [ {| sent_by := SocketEmit (socket_id sock);
                       event := "error"; payload := VStr "db" |} ]
      /\ forall m, In m (emitted o) -> event m <> "pixels")
  /\ (forall m, In m (emitted o) -> receives clients (socket_id sock) m)
  /\ (forall c m, In m (emitted o) -> receives clients c m ->
        c = socket_id sock).
Proof.
  intros o. subst o. unfold socket_on_getPixels.
  destruct db_err; cbn [st emitted].
  - split; [ reflexivity | split; [ discriminate | split; [| split ] ] ].
    + intros _. split; [ reflexivity |].
      intros m [<- | []]. discriminate.
    + intros m [<- | []]. reflexivity.
    + intros c m [<- | []] Hrec. symmetry. exact Hrec.
  - split; [ reflexivity | split; [| split; [ discriminate | split ] ] ].
    + intros _. split; [ reflexivity | split ].
      * unfold select_pixels. apply length_map.
      * intros r Hr. unfold select_pixels.
        change (VObj [("x", VInt (row_x r)); ("y", VInt (row_y r));
                      ("color", VStr (row_color r))]) with (selected r).
        now apply in_map.
    + intros m [<- | []]. reflexivity.
    + intros c m [<- | []] Hrec. symmetry. exact Hrec.
Qed.

(** * Further properties of [server.js] *)

(** ** Rows and snapshots *)

Lemma upsert_row_in x y color ts t :
  In {| row_x := x; row_y := y; row_color := color; row_last_modified := ts |}
     (upsert x y color ts t).
Proof.
  induction t as [|r t IH]; simpl.
  - left. reflexivity.
  - destruct (same_coord x y r) eqn:E.
    + apply same_coord_spec in E. injection E as -> ->. left. reflexivity.
    + right. exact IH.
Qed.

Lemma one_row_per_coord_inj t r1 r2 :
  one_row_per_coord t -> In r1 t -> In r2 t -> coord r1 = coord r2 -> r1 = r2.
Proof.
  unfold one_row_per_coord. induction t as [|r t IH]; simpl; intros Hnd H1 H2 Hc.
  - contradiction.
  - apply NoDup_cons in Hnd as [Hr Ht].
    destruct H1 as [<- | H1], H2 as [<- | H2]; auto.
    + exfalso. apply Hr. rewrite Hc. apply list_elem_of_In. now apply in_map.
    + exfalso. apply Hr. rewrite <- Hc. apply list_elem_of_In. now apply in_map.
Qed.

Lemma in_select_pixels t x y c :
  In (pixel_json (VInt x) (VInt y) (VStr c)) (select_pixels t)
  <-> exists ts,
        In {| row_x := x; row_y := y; row_color := c;
              row_last_modified := ts |} t.
Proof.
  unfold select_pixels. rewrite in_map_iff. split.
  - intros ([rx ry rc rts] & Heq & Hin). injection Heq as -> -> ->.
    exists rts. exact Hin.
  - intros (ts & Hin). eexists. split; [| exact Hin ]. reflexivity.
Qed.

Lemma upsert_on_canvas cfg x y c ts t :
  structurally_valid cfg (VInt x) (VInt y) (VStr c) ->
  on_canvas cfg t -> on_canvas cfg (upsert x y c ts t).
Proof.
  intros (_ & _ & [Hx Hy] & Hc). simpl in Hx, Hy. unfold on_canvas.
  induction t as [|r t IH]; simpl; intros Ht.
  - apply Forall_cons. split; [ simpl; tauto | constructor ].
  - apply Forall_cons in Ht as [Hr Ht].
    destruct (same_coord x y r) eqn:E.
    + apply Forall_cons. split; [| exact Ht ]. simpl.
      destruct Hr as (Hrx & Hry & _). auto.
    + apply Forall_cons. split; [ exact Hr | auto ].
Qed.

Lemma upsert_keeps_cells x y c ts t x' y' :
  cell_at x' y' t <> None -> cell_at x' y' (upsert x y c ts t) <> None.
Proof.
  intros H.
  destruct (decide ((x', y') = (x, y))) as [[= -> ->] | Hne].
  - rewrite cell_at_upsert. discriminate.
  - rewrite cell_at_upsert_other by exact Hne. exact H.
Qed.

Lemma length_upsert x y c ts t :
  (length t <= length (upsert x y c ts t) <= S (length t))%nat.
Proof.
  induction t as [|r t IH]; simpl; [ lia |].
  destruct (same_coord x y r); simpl; lia.
Qed.

(** ** What an accepted write was *)

Lemma post_api_place_write cfg ip msg ts db_err s x y c :
  accepted_write (post_api_place cfg ip msg ts db_err s) x y c ->
  destructure msg = Some (VInt x, VInt y, VStr c)
  /\ structurally_valid cfg (VInt x) (VInt y) (VStr c)
  /\ ~ within_cooldown cfg (_placeCooldown s) ip ts
  /\ db_err = false.
Proof.
  intros [_ Hem]. revert Hem.
  destruct (destructure msg) as [[[x0 y0] c0]|] eqn:Hd.
  - destruct (structurally_valid_dec cfg x0 y0 c0) as [Hv | Hv].
    + destruct (within_cooldown_dec cfg (_placeCooldown s) ip ts) as [Hw | Hw].
      * rewrite (post_api_place_denied _ _ _ _ _ _ _ _ _ Hd Hv Hw).
        discriminate.
      * rewrite (post_api_place_admitted _ _ _ _ _ _ _ _ _ Hd Hv Hw).
        destruct db_err; simpl; [ discriminate |].
        intros [= -> -> ->]. auto.
    + apply guards_fail_spec in Hv.
      destruct (post_api_place_invalid cfg ip msg x0 y0 c0 ts db_err s Hd Hv)
        as (e & why & -> & He).
      discriminate.
  - rewrite (post_api_place_throws _ _ _ _ _ _ Hd). discriminate.
Qed.

Lemma socket_on_place_write cfg sock msg ts db_err s x y c :
  accepted_write (socket_on_place cfg sock msg ts db_err s) x y c ->
  destructure msg = Some (VInt x, VInt y, VStr c)
  /\ structurally_valid cfg (VInt x) (VInt y) (VStr c)
  /\ ~ within_cooldown cfg (_socketCooldown s) (handshake_address sock) ts
  /\ db_err = false.
Proof.
  intros [_ Hem]. revert Hem.
  destruct (destructure msg) as [[[x0 y0] c0]|] eqn:Hd.
  - destruct (structurally_valid_dec cfg x0 y0 c0) as [Hv | Hv].
    + destruct (within_cooldown_dec cfg (_socketCooldown s)
                  (handshake_address sock) ts) as [Hw | Hw].
      * rewrite (socket_on_place_denied _ _ _ _ _ _ _ _ _ Hd Hv Hw).
        discriminate.
      * rewrite (socket_on_place_admitted _ _ _ _ _ _ _ _ _ Hd Hv Hw).
        destruct db_err; simpl; [ discriminate |].
        intros [= -> -> ->]. auto.
    + apply guards_fail_spec in Hv.
      destruct (socket_on_place_invalid cfg sock msg x0 y0 c0 ts db_err s
                  Hd Hv) as (e & -> & He).
      discriminate.
  - rewrite (socket_on_place_throws _ _ _ _ _ _ Hd). discriminate.
Qed.

Lemma handle_write_valid cfg req e s x y c :
  accepted_write (handle cfg req e s) x y c ->
  structurally_valid cfg (VInt x) (VInt y) (VStr c).
Proof.
  destruct req as [| ip msg | sock | sock msg]; simpl.
  - intros [_ H]. unfold get_api_pixels in H.
    destruct (db_fails e); discriminate H.
  - intros H. now apply post_api_place_write in H.
  - intros [_ H]. unfold socket_on_getPixels in H.
    destruct (db_fails e); discriminate H.
  - intros H. now apply socket_on_place_write in H.
Qed.

(** The emissions of a step, sorted by kind. *)
Lemma handle_emitted cfg req e s :
  emitted (handle cfg req e s) = []
  \/ (exists sock, emitted (handle cfg req e s) = [placeDenied_event sock])
  \/ (exists x y c,
        accepted_write (handle cfg req e s) x y c
        /\ emitted (handle cfg req e s)
           = [pixel_event (VInt x) (VInt y) (VStr c)])
  \/ (exists sock,
        req = On_getPixels sock
        /\ (emitted (handle cfg req e s)
            = [ {| sent_by := SocketEmit (socket_id sock); event := "pixels";
                   payload := VArr (select_pixels (pixels s)) |} ]
            \/ emitted (handle cfg req e s)
               = [ {| sent_by := SocketEmit (socket_id sock);
                      event := "error"; payload := VStr "db" |} ])).
Proof.
  destruct req as [| ip msg | sock | sock msg]; simpl.
  - unfold get_api_pixels. destruct (db_fails e); auto.
  - destruct (post_api_place_pixels cfg ip msg (now e) (db_fails e) s)
      as [[H _] | (x & y & c & Hw & _)]; [ auto |].
    right. right. left. exists x, y, c. split; [ exact Hw | apply Hw ].
  - right. right. right. exists sock. split; [ reflexivity |].
    unfold socket_on_getPixels. destruct (db_fails e); auto.
  - destruct (socket_on_place_pixels cfg sock msg (now e) (db_fails e) s)
      as [[[H | H] _] | (x & y & c & Hw & _)]; [ auto | eauto |].
    right. right. left. exists x, y, c. split; [ exact Hw | apply Hw ].
Qed.

Lemma run_app cfg reqs1 reqs2 s :
  run cfg (reqs1 ++ reqs2) s = run cfg reqs2 (run cfg reqs1 s).
Proof.
  revert s. induction reqs1 as [| [req e] reqs1 IH]; intros s; simpl; auto.
Qed.

Lemma handle_on_canvas cfg req e s :
  on_canvas cfg (pixels s) -> on_canvas cfg (pixels (st (handle cfg req e s))).
Proof.
  intros Hinv.
  destruct (handle_pixels cfg req e s) as [-> | (x & y & c & Hw & ->)].
  - exact Hinv.
  - apply upsert_on_canvas; [| exact Hinv ].
    exact (handle_write_valid _ _ _ _ _ _ _ Hw).
Qed.

Lemma run_on_canvas cfg reqs s :
  on_canvas cfg (pixels s) -> on_canvas cfg (pixels (run cfg reqs s)).
Proof.
  revert s. induction reqs as [| [req e] reqs IH]; intros s Hinv; simpl.
  - exact Hinv.
  - apply IH. now apply handle_on_canvas.
Qed.

(** X1: after an accepted write of [color] at [(x, y)], [GET /api/pixels]
    answers 200 with the rows of the table, [{x, y, color}] among them, and
    no other row for that coordinate; [getPixels] sends the same rows. *)
Theorem X1_snapshot_after_write cfg req e s x y c sock :
  one_row_per_coord (pixels s) ->
  accepted_write (handle cfg req e s) x y c ->
  exists rows,
    reply (get_api_pixels false (st (handle cfg req e s)))
    = json_reply 200 (VArr rows)
    /\ emitted (socket_on_getPixels sock false (st (handle cfg req e s)))
       = [ {| sent_by := SocketEmit (socket_id sock); event := "pixels";
              payload := VArr rows |} ]
    /\ In (pixel_json (VInt x) (VInt y) (VStr c)) rows
    /\ forall c', In (pixel_json (VInt x) (VInt y) (VStr c')) rows -> c' = c.
Proof.
  intros Hinv Hw.
  exists (select_pixels (pixels (st (handle cfg req e s)))).
  split; [ reflexivity | split; [ reflexivity |] ].
  pose proof (handle_one_row_per_coord cfg req e s Hinv) as Hinv'.
  apply handle_accepted_write in Hw. rewrite Hw in *.
  split.
  - apply in_select_pixels. exists (now e). apply upsert_row_in.
  - intros c' Hin. apply in_select_pixels in Hin as (ts & Hin).
    pose proof (one_row_per_coord_inj _ _ _ Hinv' Hin
                  (upsert_row_in x y c (now e) (pixels s)) eq_refl) as Heq.
    now injection Heq.
Qed.

Lemma X1_snapshot_after_write_witness :
  one_row_per_coord (pixels initial_state)
  /\ accepted_write
       (handle default_config (POST_api_place sample_ip red_10_20)
          {| now := sample_now; db_fails := false |} initial_state)
       10 20 "#ff0000"
  /\ exists rows,
       reply (get_api_pixels false
                (st (handle default_config (POST_api_place sample_ip red_10_20)
                       {| now := sample_now; db_fails := false |}
                       initial_state)))
       = json_reply 200 (VArr rows)
       /\ In (pixel_json (VInt 10) (VInt 20) (VStr "#ff0000")) rows.
Proof.
  assert (one_row_per_coord (pixels initial_state)) as Hinv
    by (apply NoDup_nil; exact I).
  assert (accepted_write
            (handle default_config (POST_api_place sample_ip red_10_20)
               {| now := sample_now; db_fails := false |} initial_state)
            10 20 "#ff0000") as Hw by (split; reflexivity).
  split; [ exact Hinv | split; [ exact Hw |] ].
  destruct (X1_snapshot_after_write default_config
              (POST_api_place sample_ip red_10_20)
              {| now := sample_now; db_fails := false |} initial_state
              10 20 "#ff0000" sample_socket Hinv Hw)
    as (rows & Hreply & _ & Hin & _).
  exists rows. split; assumption.
Defined.

(** X2: every row the server stores lies on the canvas and holds a
    canonical color: true of the empty table and kept by every sequence of
    requests. *)
Theorem X2_rows_stay_on_canvas cfg reqs :
  on_canvas cfg (pixels (run cfg reqs initial_state))
  /\ forall s, on_canvas cfg (pixels s) ->
               on_canvas cfg (pixels (run cfg reqs s)).
Proof.
  split.
  - apply run_on_canvas. constructor.
  - intros s. apply run_on_canvas.
Qed.

(** X3: the table never holds more than [W * H] rows. *)
Theorem X3_row_count_bounded cfg reqs s :
  one_row_per_coord (pixels s) ->
  on_canvas cfg (pixels s) ->
  (length (pixels (run cfg reqs s))
   <= Z.to_nat (CANVAS_W cfg) * Z.to_nat (CANVAS_H cfg))%nat.
Proof.
  intros Hone Hcan.
  pose proof (run_one_row_per_coord cfg reqs s Hone) as Hone'.
  pose proof (run_on_canvas cfg reqs s Hcan) as Hcan'.
  set (t := pixels (run cfg reqs s)) in *.
  rewrite <- (length_seqZ 0 (CANVAS_W cfg)), <- (length_seqZ 0 (CANVAS_H cfg)).
  rewrite <- length_prod, <- (length_map coord t).
  apply submseteq_length, NoDup_submseteq; [ exact Hone' |].
  intros [kx ky] Hk. apply list_elem_of_In in Hk.
  apply in_map_iff in Hk as (r & Hr & Hin).
  unfold on_canvas in Hcan'. rewrite Forall_forall in Hcan'.
  apply list_elem_of_In in Hin. apply Hcan' in Hin as (Hx & Hy & _).
  injection Hr as <- <-.
  apply list_elem_of_In, in_prod; apply list_elem_of_In, elem_of_seqZ; lia.
Qed.

Lemma X3_row_count_bounded_witness :
  one_row_per_coord (pixels initial_state)
  /\ on_canvas default_config (pixels initial_state)
  /\ (length
        (pixels
           (run default_config
              [(POST_api_place sample_ip red_10_20,
                {| now := sample_now; db_fails := false |})]
              initial_state))
      <= Z.to_nat (CANVAS_W default_config)
         * Z.to_nat (CANVAS_H default_config))%nat.
Proof.
  assert (one_row_per_coord (pixels initial_state)) as Hone
    by (apply NoDup_nil; exact I).
  assert (on_canvas default_config (pixels initial_state)) as Hcan
    by constructor.
  split; [ exact Hone | split; [ exact Hcan |] ].
  exact (X3_row_count_bounded default_config _ initial_state Hone Hcan).
Defined.

(** X4: the server broadcasts nothing but what it stored: an emission named
    [pixel] goes to every client through [io.emit], carries integer
    coordinates on the canvas and a canonical color, and the cell of the
    table holds that color with the time of the request. *)
Theorem X4_broadcast_is_stored cfg req e s m :
  In m (emitted (handle cfg req e s)) ->
  event m = "pixel" ->
  exists x y c,
    m = {| sent_by := IoEmit; event := "pixel";
           payload := pixel_json (VInt x) (VInt y) (VStr c) |}
    /\ 0 <= x < CANVAS_W cfg /\ 0 <= y < CANVAS_H cfg
    /\ validColor (VStr c) = true
    /\ cell_at x y (pixels (st (handle cfg req e s))) = Some (c, now e).
Proof.
  intros Hin Hev.
  destruct (handle_emitted cfg req e s)
    as [H | [(sock & H) | [(x & y & c & Hw & H) | (sock & _ & [H | H])]]];
    rewrite H in Hin; simpl in Hin;
    try contradiction;
    destruct Hin as [<- | []]; try discriminate Hev.
  exists x, y, c.
  pose proof (handle_write_valid _ _ _ _ _ _ _ Hw) as (_ & _ & [Hx Hy] & Hc).
  apply handle_accepted_write in Hw. rewrite Hw, cell_at_upsert.
  apply validColor_spec in Hc. simpl in Hx, Hy. auto 10.
Qed.

Lemma X4_broadcast_is_stored_witness :
  In (pixel_event (VInt 10) (VInt 20) (VStr "#ff0000"))
     (emitted (handle default_config (On_place sample_socket red_10_20)
                 {| now := sample_now; db_fails := false |} initial_state))
  /\ event (pixel_event (VInt 10) (VInt 20) (VStr "#ff0000")) = "pixel"
  /\ exists x y c,
       pixel_event (VInt 10) (VInt 20) (VStr "#ff0000")
       = {| sent_by := IoEmit; event := "pixel";
            payload := pixel_json (VInt x) (VInt y) (VStr c) |}
       /\ 0 <= x < CANVAS_W default_config
       /\ 0 <= y < CANVAS_H default_config
       /\ validColor (VStr c) = true
       /\ cell_at x y
            (pixels
               (st (handle default_config (On_place sample_socket red_10_20)
                      {| now := sample_now; db_fails := false |}
                      initial_state)))
          = Some (c, now {| now := sample_now; db_fails := false |}).
Proof.
  split; [ left; reflexivity | split; [ reflexivity |] ].
  exact (X4_broadcast_is_stored default_config
           (On_place sample_socket red_10_20)
           {| now := sample_now; db_fails := false |} initial_state
           (pixel_event (VInt 10) (VInt 20) (VStr "#ff0000"))
           (or_introl eq_refl) eq_refl).
Defined.

(** X9: no request deletes a cell or shrinks the table: a coordinate that
    has a row keeps one through any sequence of requests, and a single
    request adds at most one row. *)
Theorem X9_cells_are_never_deleted cfg :
  (forall reqs s x y,
      cell_at x y (pixels s) <> None ->
      cell_at x y (pixels (run cfg reqs s)) <> None)
  /\ (forall reqs s,
        (length (pixels s) <= length (pixels (run cfg reqs s)))%nat)
  /\ (forall req e s,
        (length (pixels (st (handle cfg req e s))) <= S (length (pixels s)))%nat).
Proof.
  split; [| split ].
  - intros reqs. induction reqs as [| [req e] reqs IH]; intros s x y H; simpl.
    + exact H.
    + apply IH.
      destruct (handle_pixels cfg req e s) as [-> | (x' & y' & c & _ & ->)].
      * exact H.
      * now apply upsert_keeps_cells.
  - intros reqs. induction reqs as [| [req e] reqs IH]; intros s; simpl.
    + lia.
    + etransitivity; [| apply IH ].
      destruct (handle_pixels cfg req e s) as [-> | (x' & y' & c & _ & ->)].
      * lia.
      * apply length_upsert.
  - intros req e s.
    destruct (handle_pixels cfg req e s) as [-> | (x' & y' & c & _ & ->)].
    + lia.
    + apply length_upsert.
Qed.

(** ** The rate-limit tables, entry by entry *)

Lemma lastAcceptedAt_default (table : option (gmap string Z)) a :
  lastAcceptedAt (Some (default ∅ table)) a = lastAcceptedAt table a.
Proof.
  destruct table as [t|]; simpl; [ reflexivity | apply lookup_empty ].
Qed.

Lemma lastAcceptedAt_insert (table : option (gmap string Z)) ip ts a :
  lastAcceptedAt (Some (<[ip := ts]> (default ∅ table))) a
  = if decide (ip = a) then Some ts else lastAcceptedAt table a.
Proof.
  simpl. rewrite lookup_insert. destruct (decide (ip = a)); [ reflexivity |].
  apply (lastAcceptedAt_default table a).
Qed.

Lemma within_cooldown_ext cfg t1 t2 ip ts :
  lastAcceptedAt t1 ip = lastAcceptedAt t2 ip ->
  within_cooldown cfg t1 ip ts <-> within_cooldown cfg t2 ip ts.
Proof. unfold within_cooldown. intros ->. reflexivity. Qed.

(** The state a [place] handler leaves, in the terms of the entries. *)
Lemma post_api_place_state cfg ip msg ts db_err s :
  let r := post_api_place cfg ip msg ts db_err s in
  _socketCooldown (st r) = _socketCooldown s
  /\ ((verdict_of (exit r) = Rejected InvalidInput
       \/ verdict_of (exit r) = Rejected Cooldown)
      /\ pixels (st r) = pixels s
      /\ (forall a, lastAcceptedAt (_placeCooldown (st r)) a
                    = lastAcceptedAt (_placeCooldown s) a)
      \/ (exit r = DbError \/ exit r = Done)
         /\ forall a, lastAcceptedAt (_placeCooldown (st r)) a
                      = if decide (ip = a) then Some ts
                        else lastAcceptedAt (_placeCooldown s) a).
Proof.
  intros r. subst r.
  destruct (destructure msg) as [[[x y] color]|] eqn:Hd.
  - destruct (structurally_valid_dec cfg x y color) as [Hv | Hv].
    + destruct (within_cooldown_dec cfg (_placeCooldown s) ip ts) as [Hw | Hw].
      * rewrite (post_api_place_denied _ _ _ _ _ _ _ _ _ Hd Hv Hw).
        cbn [st exit pixels _placeCooldown _socketCooldown verdict_of].
        split; [ reflexivity | left ]. split; [ auto |].
        split; [ reflexivity |]. intros a. apply lastAcceptedAt_default.
      * rewrite (post_api_place_admitted _ _ _ _ _ _ _ _ _ Hd Hv Hw).
        cbn [st exit pixels _placeCooldown _socketCooldown].
        split; [ reflexivity | right ]. split.
        -- destruct db_err; auto.
        -- intros a. apply lastAcceptedAt_insert.
    + apply guards_fail_spec in Hv.
      destruct (post_api_place_invalid cfg ip msg x y color ts db_err s Hd Hv)
        as (e & why & -> & He).
      cbn [st exit]. split; [ reflexivity | left ]. auto.
  - rewrite (post_api_place_throws _ _ _ _ _ _ Hd).
    cbn [st exit verdict_of]. split; [ reflexivity | left ]. auto.
Qed.

Lemma socket_on_place_state cfg sock msg ts db_err s :
  let w := socket_on_place cfg sock msg ts db_err s in
  _placeCooldown (st w) = _placeCooldown s
  /\ ((verdict_of (exit w) = Rejected InvalidInput
       \/ verdict_of (exit w) = Rejected Cooldown)
      /\ pixels (st w) = pixels s
      /\ (forall a, lastAcceptedAt (_socketCooldown (st w)) a
                    = lastAcceptedAt (_socketCooldown s) a)
      \/ (exit w = DbError \/ exit w = Done)
         /\ forall a, lastAcceptedAt (_socketCooldown (st w)) a
                      = if decide (handshake_address sock = a) then Some ts
                        else lastAcceptedAt (_socketCooldown s) a).
Proof.
  intros w. subst w.
  destruct (destructure msg) as [[[x y] color]|] eqn:Hd.
  - destruct (structurally_valid_dec cfg x y color) as [Hv | Hv].
    + destruct (within_cooldown_dec cfg (_socketCooldown s)
                  (handshake_address sock) ts) as [Hw | Hw].
      * rewrite (socket_on_place_denied _ _ _ _ _ _ _ _ _ Hd Hv Hw).
        cbn [st exit pixels _placeCooldown _socketCooldown verdict_of].
        split; [ reflexivity | left ]. split; [ auto |].
        split; [ reflexivity |]. intros a. apply lastAcceptedAt_default.
      * rewrite (socket_on_place_admitted _ _ _ _ _ _ _ _ _ Hd Hv Hw).
        cbn [st exit pixels _placeCooldown _socketCooldown].
        split; [ reflexivity | right ]. split.
        -- destruct db_err; auto.
        -- intros a. apply lastAcceptedAt_insert.
    + apply guards_fail_spec in Hv.
      destruct (socket_on_place_invalid cfg sock msg x y color ts db_err s
                  Hd Hv) as (e & -> & He).
      cbn [st exit]. split; [ reflexivity | left ]. auto.
  - rewrite (socket_on_place_throws _ _ _ _ _ _ Hd).
    cbn [st exit verdict_of]. split; [ reflexivity | left ]. auto.
Qed.

(** X5: rate limiting is per actor and per path: a request changes no
    entry but that of its own actor in the table of its own path, so whether
    any other actor is within its cooldown is not affected. *)
Theorem X5_other_actors_are_not_touched cfg req e s a :
  (rest_actor req <> Some a ->
   lastAcceptedAt (_placeCooldown (st (handle cfg req e s))) a
   = lastAcceptedAt (_placeCooldown s) a
   /\ forall ts,
        within_cooldown cfg (_placeCooldown (st (handle cfg req e s))) a ts
        <-> within_cooldown cfg (_placeCooldown s) a ts)
  /\ (socket_actor req <> Some a ->
      lastAcceptedAt (_socketCooldown (st (handle cfg req e s))) a
      = lastAcceptedAt (_socketCooldown s) a
      /\ forall ts,
           within_cooldown cfg (_socketCooldown (st (handle cfg req e s))) a ts
           <-> within_cooldown cfg (_socketCooldown s) a ts).
Proof.
  assert (forall t1 t2,
             lastAcceptedAt t1 a = lastAcceptedAt t2 a ->
             lastAcceptedAt t1 a = lastAcceptedAt t2 a
             /\ forall ts, within_cooldown cfg t1 a ts
                           <-> within_cooldown cfg t2 a ts) as Hext.
  { intros t1 t2 H. split; [ exact H |]. intros ts.
    now apply within_cooldown_ext. }
  destruct req as [| ip msg | sock | sock msg]; simpl.
  - unfold get_api_pixels. destruct (db_fails e); simpl; split; intros _;
      now apply Hext.
  - destruct (post_api_place_state cfg ip msg (now e) (db_fails e) s)
      as [Hother [(_ & _ & Hsame) | (_ & Hset)]].
    + split; intros _; apply Hext; [ apply Hsame | now rewrite Hother ].
    + split; intros Hne; apply Hext; [| now rewrite Hother ].
      rewrite Hset. destruct (decide (ip = a)); congruence.
  - unfold socket_on_getPixels. destruct (db_fails e); simpl; split; intros _;
      now apply Hext.
  - destruct (socket_on_place_state cfg sock msg (now e) (db_fails e) s)
      as [Hother [(_ & _ & Hsame) | (_ & Hset)]].
    + split; intros _; apply Hext; [ now rewrite Hother | apply Hsame ].
    + split; intros Hne; apply Hext; [ now rewrite Hother |].
      rewrite Hset. destruct (decide (handshake_address sock = a)); congruence.
Qed.

(** X6: an actor without an entry is measured from time 0: its valid
    request is denied exactly when [Date.now()] is below the cooldown. *)
Theorem X6_missing_entry_counts_from_zero
    cfg ip sock msg x y color ts db_err s :
  destructure msg = Some (x, y, color) ->
  structurally_valid cfg x y color ->
  (lastAcceptedAt (_placeCooldown s) ip = None ->
   reply (post_api_place cfg ip msg ts db_err s)
   = json_reply 429 (error_json "cooldown")
   <-> ts < PLACE_COOLDOWN_MS cfg)
  /\ (lastAcceptedAt (_socketCooldown s) (handshake_address sock) = None ->
      emitted (socket_on_place cfg sock msg ts db_err s)
      = [placeDenied_event sock]
      <-> ts < PLACE_COOLDOWN_MS cfg).
Proof.
  intros Hd Hv. split; intros Hnone.
  - assert (within_cooldown cfg (_placeCooldown s) ip ts
            <-> ts < PLACE_COOLDOWN_MS cfg) as <-.
    { unfold within_cooldown. rewrite Hnone. simpl. lia. }
    destruct (within_cooldown_dec cfg (_placeCooldown s) ip ts) as [Hw | Hw].
    + rewrite (post_api_place_denied _ _ _ _ _ _ _ _ _ Hd Hv Hw). tauto.
    + rewrite (post_api_place_admitted _ _ _ _ _ _ _ _ _ Hd Hv Hw).
      destruct db_err; simpl; split; (discriminate || contradiction).
  - assert (within_cooldown cfg (_socketCooldown s) (handshake_address sock) ts
            <-> ts < PLACE_COOLDOWN_MS cfg) as <-.
    { unfold within_cooldown. rewrite Hnone. simpl. lia. }
    destruct (within_cooldown_dec cfg (_socketCooldown s)
                (handshake_address sock) ts) as [Hw | Hw].
    + rewrite (socket_on_place_denied _ _ _ _ _ _ _ _ _ Hd Hv Hw). tauto.
    + rewrite (socket_on_place_admitted _ _ _ _ _ _ _ _ _ Hd Hv Hw).
      destruct db_err; simpl; split; (discriminate || contradiction).
Qed.

Lemma X6_missing_entry_counts_from_zero_witness :
  destructure red_10_20 = Some (VInt 10, VInt 20, VStr "#ff0000")
  /\ structurally_valid default_config (VInt 10) (VInt 20) (VStr "#ff0000")
  /\ lastAcceptedAt (_placeCooldown initial_state) sample_ip = None
  /\ 100 < PLACE_COOLDOWN_MS default_config
  /\ reply (post_api_place default_config sample_ip red_10_20 100 false
              initial_state)
     = json_reply 429 (error_json "cooldown").
Proof.
  assert (100 < PLACE_COOLDOWN_MS default_config) as Hearly by reflexivity.
  split; [ reflexivity | split; [ exact sample_request_valid |] ].
  split; [ reflexivity | split; [ exact Hearly |] ].
  exact (proj2 (proj1 (X6_missing_entry_counts_from_zero default_config
                         sample_ip sample_socket red_10_20 (VInt 10) (VInt 20)
                         (VStr "#ff0000") 100 false initial_state eq_refl
                         sample_request_valid) eq_refl) Hearly).
Defined.

(** X7: a cooldown of zero (or less) switches the limiter off: with a clock
    that is not behind the actor's entry, no valid request is denied. *)
Theorem X7_no_cooldown_no_denial cfg ip sock msg x y color ts db_err s :
  PLACE_COOLDOWN_MS cfg <= 0 ->
  destructure msg = Some (x, y, color) ->
  structurally_valid cfg x y color ->
  (default 0 (lastAcceptedAt (_placeCooldown s) ip) <= ts ->
   verdict_of (exit (post_api_place cfg ip msg ts db_err s))
   = (if db_err then Rejected StorageFailure else Accepted))
  /\ (default 0 (lastAcceptedAt (_socketCooldown s) (handshake_address sock))
      <= ts ->
      verdict_of (exit (socket_on_place cfg sock msg ts db_err s))
      = (if db_err then Rejected StorageFailure else Accepted)).
Proof.
  intros Hzero Hd Hv. split; intros Hclock.
  - assert (~ within_cooldown cfg (_placeCooldown s) ip ts) as Hw
      by (unfold within_cooldown; lia).
    rewrite (post_api_place_admitted _ _ _ _ _ _ _ _ _ Hd Hv Hw).
    destruct db_err; reflexivity.
  - assert (~ within_cooldown cfg (_socketCooldown s)
                (handshake_address sock) ts) as Hw
      by (unfold within_cooldown; lia).
    rewrite (socket_on_place_admitted _ _ _ _ _ _ _ _ _ Hd Hv Hw).
    destruct db_err; reflexivity.
Qed.

Lemma X7_no_cooldown_no_denial_witness :
  verdict_of
    (exit (post_api_place
             {| CANVAS_W := 300; CANVAS_H := 150; PLACE_COOLDOWN_MS := 0 |}
             sample_ip red_10_20 sample_now false
             (st (post_api_place
                    {| CANVAS_W := 300; CANVAS_H := 150;
                       PLACE_COOLDOWN_MS := 0 |}
                    sample_ip green_11_20 sample_now false initial_state))))
  = Accepted.
Proof.
  refine (proj1 (X7_no_cooldown_no_denial
                   {| CANVAS_W := 300; CANVAS_H := 150;
                      PLACE_COOLDOWN_MS := 0 |}
                   sample_ip sample_socket red_10_20 (VInt 10) (VInt 20)
                   (VStr "#ff0000") sample_now false _ _ eq_refl _) _).
  - vm_compute. discriminate.
  - apply guards_pass_spec. reflexivity.
  - vm_compute. discriminate.
Defined.

(** X8: on the real-time path a storage failure is silent: nothing is sent
    to anyone and the table is as it was, yet the slot is taken, so the next
    valid message of the actor within the cooldown is denied. *)
Theorem X8_socket_storage_failure_is_silent cfg sock msg x y color ts s :
  destructure msg = Some (x, y, color) ->
  structurally_valid cfg x y color ->
  ~ within_cooldown cfg (_socketCooldown s) (handshake_address sock) ts ->
  emitted (socket_on_place cfg sock msg ts true s) = []
  /\ reply (socket_on_place cfg sock msg ts true s) = None
  /\ pixels (st (socket_on_place cfg sock msg ts true s)) = pixels s
  /\ forall sock2 msg2 x2 y2 color2 ts2 db_err2,
       handshake_address sock2 = handshake_address sock ->
       destructure msg2 = Some (x2, y2, color2) ->
       structurally_valid cfg x2 y2 color2 ->
       ts2 - ts < PLACE_COOLDOWN_MS cfg ->
       emitted (socket_on_place cfg sock2 msg2 ts2 db_err2
                  (st (socket_on_place cfg sock msg ts true s)))
       = [placeDenied_event sock2]
       /\ pixels (st (socket_on_place cfg sock2 msg2 ts2 db_err2
                        (st (socket_on_place cfg sock msg ts true s))))
          = pixels s.
Proof.
  intros Hd Hv Hw.
  rewrite (socket_on_place_admitted _ _ _ _ _ _ _ _ _ Hd Hv Hw).
  cbn [st emitted reply pixels].
  split; [ reflexivity | split; [ reflexivity | split; [ reflexivity |] ] ].
  intros sock2 msg2 x2 y2 color2 ts2 db_err2 Haddr Hd2 Hv2 Hsoon.
  rewrite (socket_on_place_denied _ _ _ _ _ _ _ _ _ Hd2 Hv2);
    [ split; reflexivity |].
  cbn [_socketCooldown]. rewrite Haddr.
  apply within_cooldown_after_write. exact Hsoon.
Qed.

Lemma X8_socket_storage_failure_is_silent_witness :
  emitted (socket_on_place default_config sample_socket red_10_20 sample_now
             true initial_state) = []
  /\ emitted (socket_on_place default_config sample_socket green_11_20
                (sample_now + 1) false
                (st (socket_on_place default_config sample_socket red_10_20
                       sample_now true initial_state)))
     = [placeDenied_event sample_socket].
Proof.
  pose proof (X8_socket_storage_failure_is_silent default_config sample_socket
                red_10_20 (VInt 10) (VInt 20) (VStr "#ff0000") sample_now
                initial_state eq_refl sample_request_valid
                (sample_actor_fresh _socketCooldown (or_intror eq_refl)))
    as (Hsilent & _ & _ & Hnext).
  split; [ exact Hsilent |].
  refine (proj1 (Hnext sample_socket green_11_20 (VInt 11) (VInt 20)
                   (VStr "#00ff00") (sample_now + 1) false eq_refl eq_refl
                   _ _)).
  - apply guards_pass_spec. reflexivity.
  - vm_compute. reflexivity.
Defined.

(** X10: the two paths are the same arbiter: for an actor with the same
    entry in both tables, [POST /api/place] and the socket's [place] leave
    by the same exit, store the same table, set the same entry and, when not
    denied, emit the same broadcast. *)
Theorem X10_both_paths_decide_alike cfg sock msg ts db_err s :
  lastAcceptedAt (_placeCooldown s) (handshake_address sock)
  = lastAcceptedAt (_socketCooldown s) (handshake_address sock) ->
  let r := post_api_place cfg (handshake_address sock) msg ts db_err s in
  let w := socket_on_place cfg sock msg ts db_err s in
  exit r = exit w
  /\ pixels (st r) = pixels (st w)
  /\ lastAcceptedAt (_placeCooldown (st r)) (handshake_address sock)
     = lastAcceptedAt (_socketCooldown (st w)) (handshake_address sock)
  /\ (exit r <> CooldownDenied -> emitted r = emitted w)
  /\ (exit r = CooldownDenied ->
      emitted r = [] /\ emitted w = [placeDenied_event sock]).
Proof.
  intros Hsame r w. subst r w.
  destruct (destructure msg) as [[[x y] color]|] eqn:Hd.
  - destruct (structurally_valid_dec cfg x y color) as [Hv | Hv].
    + destruct (within_cooldown_dec cfg (_placeCooldown s)
                  (handshake_address sock) ts) as [Hw | Hw].
      * pose proof (proj1 (within_cooldown_ext cfg _ _ _ ts Hsame) Hw) as Hw'.
        rewrite (post_api_place_denied _ _ _ _ _ _ _ _ _ Hd Hv Hw).
        rewrite (socket_on_place_denied _ _ _ _ _ _ _ _ _ Hd Hv Hw').
        cbn [st exit pixels emitted _placeCooldown _socketCooldown].
        rewrite !lastAcceptedAt_default. intuition congruence.
      * assert (~ within_cooldown cfg (_socketCooldown s)
                    (handshake_address sock) ts) as Hw'
          by (rewrite <- (within_cooldown_ext cfg _ _ _ ts Hsame); exact Hw).
        rewrite (post_api_place_admitted _ _ _ _ _ _ _ _ _ Hd Hv Hw).
        rewrite (socket_on_place_admitted _ _ _ _ _ _ _ _ _ Hd Hv Hw').
        cbn [st exit pixels emitted _placeCooldown _socketCooldown].
        rewrite !lastAcceptedAt_insert.
        destruct (decide (handshake_address sock = handshake_address sock));
          [| congruence ].
        destruct db_err; intuition congruence.
    + apply guards_fail_spec in Hv. revert Hv.
      unfold post_api_place, socket_on_place, socket_place_try, guards_pass.
      rewrite Hd.
      destruct (Number_isInteger x), (Number_isInteger y); simpl;
        try (intros _; intuition congruence).
      destruct ((int_value x <? 0) || (int_value x >=? CANVAS_W cfg)
                || (int_value y <? 0) || (int_value y >=? CANVAS_H cfg));
        simpl; try (intros _; intuition congruence).
      destruct (validColor color); simpl; [ discriminate |].
      intros _; intuition congruence.
  - rewrite (post_api_place_throws _ _ _ _ _ _ Hd).
    rewrite (socket_on_place_throws _ _ _ _ _ _ Hd).
    simpl. intuition congruence.
Qed.

Lemma X10_both_paths_decide_alike_witness :
  lastAcceptedAt (_placeCooldown initial_state)
    (handshake_address sample_socket)
  = lastAcceptedAt (_socketCooldown initial_state)
      (handshake_address sample_socket)
  /\ pixels (st (post_api_place default_config
                   (handshake_address sample_socket) red_10_20 sample_now
                   false initial_state))
     = pixels (st (socket_on_place default_config sample_socket red_10_20
                     sample_now false initial_state)).
Proof.
  split; [ reflexivity |].
  exact (proj1 (proj2 (X10_both_paths_decide_alike default_config
                         sample_socket red_10_20 sample_now false
                         initial_state eq_refl))).
Defined.

(** ** States that no request tells apart *)

Lemma same_view_refl s : same_view s s.
Proof. repeat split. Qed.

Lemma same_view_tests cfg s1 s2 ip ts :
  same_view s1 s2 ->
  (ts - or_zero (default ∅ (_placeCooldown s1) !! ip) <? PLACE_COOLDOWN_MS cfg)
  = (ts - or_zero (default ∅ (_placeCooldown s2) !! ip) <? PLACE_COOLDOWN_MS cfg)
  /\ (ts - or_zero (default ∅ (_socketCooldown s1) !! ip)
      <? PLACE_COOLDOWN_MS cfg)
     = (ts - or_zero (default ∅ (_socketCooldown s2) !! ip)
        <? PLACE_COOLDOWN_MS cfg).
Proof.
  intros (_ & Hp & Hs). rewrite !or_zero_default, Hp, Hs. auto.
Qed.

Lemma post_api_place_same_view cfg ip msg ts db_err s1 s2 :
  same_view s1 s2 ->
  exit (post_api_place cfg ip msg ts db_err s1)
  = exit (post_api_place cfg ip msg ts db_err s2)
  /\ reply (post_api_place cfg ip msg ts db_err s1)
     = reply (post_api_place cfg ip msg ts db_err s2)
  /\ emitted (post_api_place cfg ip msg ts db_err s1)
     = emitted (post_api_place cfg ip msg ts db_err s2)
  /\ same_view (st (post_api_place cfg ip msg ts db_err s1))
               (st (post_api_place cfg ip msg ts db_err s2)).
Proof.
  intros Hsv. pose proof (same_view_tests cfg s1 s2 ip ts Hsv) as [Ht _].
  destruct Hsv as (Hpix & Hp & Hs).
  unfold post_api_place.
  assert (same_view s1 s2) as Hsv by (split; [| split ]; assumption).
  destruct (destructure msg) as [[[x y] color]|]; [| easy ].
  destruct (negb (Number_isInteger x) || negb (Number_isInteger y));
    [ easy |].
  destruct ((int_value x <? 0) || (int_value x >=? CANVAS_W cfg)
            || (int_value y <? 0) || (int_value y >=? CANVAS_H cfg));
    [ easy |].
  destruct (negb (validColor color)); [ easy |].
  cbv zeta. rewrite Ht. clear Ht.
  destruct (_ <? _); [| destruct db_err ];
    (split; [ reflexivity | split; [ reflexivity | split; [ reflexivity |] ] ]);
    unfold same_view; cbn [st pixels _placeCooldown _socketCooldown];
    (split; [ rewrite ?Hpix; reflexivity | split; intros a ]);
    rewrite ?lastAcceptedAt_default, ?lastAcceptedAt_insert, ?Hp, ?Hs;
    reflexivity.
Qed.

Lemma socket_on_place_same_view cfg sock msg ts db_err s1 s2 :
  same_view s1 s2 ->
  exit (socket_on_place cfg sock msg ts db_err s1)
  = exit (socket_on_place cfg sock msg ts db_err s2)
  /\ reply (socket_on_place cfg sock msg ts db_err s1)
     = reply (socket_on_place cfg sock msg ts db_err s2)
  /\ emitted (socket_on_place cfg sock msg ts db_err s1)
     = emitted (socket_on_place cfg sock msg ts db_err s2)
  /\ same_view (st (socket_on_place cfg sock msg ts db_err s1))
               (st (socket_on_place cfg sock msg ts db_err s2)).
Proof.
  intros Hsv.
  pose proof (same_view_tests cfg s1 s2 (handshake_address sock) ts Hsv)
    as [_ Ht].
  destruct Hsv as (Hpix & Hp & Hs).
  unfold socket_on_place, socket_place_try.
  assert (same_view s1 s2) as Hsv by (split; [| split ]; assumption).
  destruct (destructure msg) as [[[x y] color]|]; [| easy ].
  destruct (negb (Number_isInteger x) || negb (Number_isInteger y));
    [ easy |].
  destruct ((int_value x <? 0) || (int_value x >=? CANVAS_W cfg)
            || (int_value y <? 0) || (int_value y >=? CANVAS_H cfg));
    [ easy |].
  destruct (negb (validColor color)); [ easy |].
  cbv zeta. rewrite Ht. clear Ht.
  destruct (_ <? _); [| destruct db_err ];
    (split; [ reflexivity | split; [ reflexivity | split; [ reflexivity |] ] ]);
    unfold same_view; cbn [st pixels _placeCooldown _socketCooldown];
    (split; [ rewrite ?Hpix; reflexivity | split; intros a ]);
    rewrite ?lastAcceptedAt_default, ?lastAcceptedAt_insert, ?Hp, ?Hs;
    reflexivity.
Qed.

Lemma handle_same_view cfg req e s1 s2 :
  same_view s1 s2 ->
  exit (handle cfg req e s1) = exit (handle cfg req e s2)
  /\ reply (handle cfg req e s1) = reply (handle cfg req e s2)
  /\ emitted (handle cfg req e s1) = emitted (handle cfg req e s2)
  /\ same_view (st (handle cfg req e s1)) (st (handle cfg req e s2)).
Proof.
  intros Hsv. destruct req as [| ip msg | sock | sock msg]; simpl.
  - unfold get_api_pixels. destruct Hsv as (Hpix & Hp & Hs).
    destruct (db_fails e); simpl; rewrite ?Hpix; repeat split; auto.
  - now apply post_api_place_same_view.
  - unfold socket_on_getPixels. destruct Hsv as (Hpix & Hp & Hs).
    destruct (db_fails e); simpl; rewrite ?Hpix; repeat split; auto.
  - now apply socket_on_place_same_view.
Qed.

Lemma trace_same_view cfg reqs s1 s2 :
  same_view s1 s2 -> trace cfg reqs s1 = trace cfg reqs s2.
Proof.
  revert s1 s2. induction reqs as [| [req e] reqs IH]; intros s1 s2 Hsv; simpl.
  - reflexivity.
  - destruct (handle_same_view cfg req e s1 s2 Hsv) as (-> & -> & -> & Hsv').
    f_equal. now apply IH.
Qed.

Lemma handle_rejected_same_view cfg req e s :
  verdict_of (exit (handle cfg req e s)) = Rejected InvalidInput
  \/ verdict_of (exit (handle cfg req e s)) = Rejected Cooldown ->
  same_view (st (handle cfg req e s)) s.
Proof.
  destruct req as [| ip msg | sock | sock msg]; simpl.
  - intros _. unfold get_api_pixels. destruct (db_fails e); apply same_view_refl.
  - intros Hrej.
    destruct (post_api_place_state cfg ip msg (now e) (db_fails e) s)
      as [Hother [(_ & Hpix & Hsame) | ([He | He] & _)]].
    + split; [ exact Hpix | split; [ exact Hsame |] ].
      intros a. now rewrite Hother.
    + rewrite He in Hrej. destruct Hrej; discriminate.
    + rewrite He in Hrej. destruct Hrej; discriminate.
  - intros _. unfold socket_on_getPixels.
    destruct (db_fails e); apply same_view_refl.
  - intros Hrej.
    destruct (socket_on_place_state cfg sock msg (now e) (db_fails e) s)
      as [Hother [(_ & Hpix & Hsame) | ([He | He] & _)]].
    + split; [ exact Hpix | split; [| exact Hsame ] ].
      intros a. now rewrite Hother.
    + rewrite He in Hrej. destruct Hrej; discriminate.
    + rewrite He in Hrej. destruct Hrej; discriminate.
Qed.

(** X16: a [place] message on the real-time channel that is rejected for
    invalid input or for cooldown is invisible afterwards: the handlers give
    every later sequence of requests the same exits, replies and emissions,
    and leave the same pixels and rate-limit entries, as if the rejected
    message had never been sent. *)
Theorem X16_rejections_are_unobservable cfg sock data e s reqs :
  verdict_of (exit (handle cfg (On_place sock data) e s))
  = Rejected InvalidInput
  \/ verdict_of (exit (handle cfg (On_place sock data) e s))
     = Rejected Cooldown ->
  trace cfg reqs (st (handle cfg (On_place sock data) e s))
  = trace cfg reqs s
  /\ same_view (run cfg reqs (st (handle cfg (On_place sock data) e s)))
               (run cfg reqs s).
Proof.
  intros Hrej. apply handle_rejected_same_view in Hrej.
  split; [ now apply trace_same_view |].
  revert Hrej. generalize (st (handle cfg (On_place sock data) e s)) as s1.
  revert s.
  induction reqs as [| [rq en] reqs IH]; intros s s1 Hsv; simpl.
  - exact Hsv.
  - apply IH. now apply handle_same_view.
Qed.

Lemma X16_rejections_are_unobservable_witness :
  verdict_of
    (exit (handle default_config (On_place sample_socket red_10_20)
             {| now := 100; db_fails := false |} initial_state))
  = Rejected Cooldown
  /\ trace default_config
       [(On_place sample_socket red_10_20,
         {| now := sample_now; db_fails := false |});
        (POST_api_place sample_ip green_11_20,
         {| now := sample_now + 1; db_fails := false |})]
       (st (handle default_config (On_place sample_socket red_10_20)
              {| now := 100; db_fails := false |} initial_state))
     = trace default_config
         [(On_place sample_socket red_10_20,
           {| now := sample_now; db_fails := false |});
          (POST_api_place sample_ip green_11_20,
           {| now := sample_now + 1; db_fails := false |})]
         initial_state.
Proof.
  split; [ reflexivity |].
  exact (proj1 (X16_rejections_are_unobservable default_config
                  sample_socket red_10_20
                  {| now := 100; db_fails := false |} initial_state
                  [(On_place sample_socket red_10_20,
                    {| now := sample_now; db_fails := false |});
                   (POST_api_place sample_ip green_11_20,
                    {| now := sample_now + 1; db_fails := false |})]
                  (or_intror eq_refl))).
Defined.

(** * Properties of the client, [script.js] *)

(** ** Keys of cells *)

Lemma uint_numeral_comma_free d :
  ~ In ","%char (list_ascii_of_string (DecimalString.NilEmpty.string_of_uint d)).
Proof.
  induction d; simpl; intros H; try contradiction;
    destruct H as [H | H]; try discriminate H; auto.
Qed.

Lemma decimal_comma_free n : ~ In ","%char (list_ascii_of_string (decimal n)).
Proof.
  unfold decimal, DecimalString.NilZero.string_of_int,
    DecimalString.NilZero.string_of_uint.
  destruct (Z.to_int n) as [d | d]; destruct d eqn:E; rewrite <- ?E;
    simpl; intros H;
    repeat (destruct H as [H | H]; try discriminate H);
    try contradiction;
    try (revert H; rewrite <- E; apply uint_numeral_comma_free);
    try (revert H; subst d; apply uint_numeral_comma_free).
Qed.

Lemma to_int_not_nil n :
  Z.to_int n <> Decimal.Pos Decimal.Nil /\ Z.to_int n <> Decimal.Neg Decimal.Nil.
Proof.
  destruct n as [| p | p]; simpl; split; try discriminate;
    intros [= H]; exact (DecimalPos.Unsigned.to_uint_nonnil p H).
Qed.

Lemma Number_of_decimal n : Number_of (decimal n) = Some n.
Proof.
  unfold Number_of, decimal.
  destruct (to_int_not_nil n) as [Hp Hn].
  rewrite (DecimalString.NilZero.isi _ Hp Hn), DecimalZ.of_to. reflexivity.
Qed.

Lemma decimal_inj n m : decimal n = decimal m -> n = m.
Proof.
  intros H. pose proof (Number_of_decimal n) as Hn.
  rewrite H, Number_of_decimal in Hn. congruence.
Qed.

Lemma split_comma_nonempty s : split_comma s <> [].
Proof.
  induction s as [|a s IH]; simpl; [ discriminate |].
  destruct (Ascii.eqb a ","); [ discriminate |].
  destruct (split_comma s); [ contradiction | discriminate ].
Qed.

Lemma split_comma_free s :
  ~ In ","%char (list_ascii_of_string s) -> split_comma s = [s].
Proof.
  induction s as [|a s IH]; simpl; intros H; [ reflexivity |].
  destruct (Ascii.eqb_spec a ","%char) as [-> | Hne]; [ tauto |].
  rewrite IH by tauto. reflexivity.
Qed.

Lemma split_comma_app a b :
  ~ In ","%char (list_ascii_of_string a) ->
  split_comma (a ++ String "," b) = a :: split_comma b.
Proof.
  induction a as [|ch a IH]; simpl; intros H; [ reflexivity |].
  destruct (Ascii.eqb_spec ch ","%char) as [-> | Hne]; [ tauto |].
  rewrite IH by tauto. reflexivity.
Qed.

Lemma split_comma_key x y :
  split_comma (Client.key x y) = [decimal x; decimal y].
Proof.
  unfold Client.key.
  change ("," ++ decimal y)%string with (String "," (decimal y)).
  rewrite split_comma_app by apply decimal_comma_free.
  rewrite split_comma_free by apply decimal_comma_free. reflexivity.
Qed.

Lemma key_inj x y x' y' :
  Client.key x y = Client.key x' y' -> (x, y) = (x', y').
Proof.
  intros H. pose proof (split_comma_key x y) as Hs.
  rewrite H, split_comma_key in Hs. injection Hs as Hx Hy.
  apply decimal_inj in Hx, Hy. congruence.
Qed.

(** X12: the key [`${x},${y}`] names one cell: [drawAllPixels] reads the
    coordinates back from it, and two cells never share a key. *)
Theorem X12_key_round_trip :
  (forall x y, Client.cell_of_key (Client.key x y) = Some (x, y))
  /\ (forall x y x' y',
        Client.key x y = Client.key x' y' -> x = x' /\ y = y').
Proof.
  split.
  - intros x y. unfold Client.cell_of_key.
    rewrite split_comma_key, !Number_of_decimal. reflexivity.
  - intros x y x' y' H. apply key_inj in H. now injection H.
Qed.

(** ** The replica *)

Lemma fill_select_pixels t m :
  Client.fill (select_pixels t) m
  = Some (fold_left
            (fun m r => <[Client.key (row_x r) (row_y r) := row_color r]> m)
            t m).
Proof.
  revert m. induction t as [|r t IH]; intros m; simpl; [ reflexivity |].
  apply IH.
Qed.

Lemma on_pixels_snapshot t c :
  Client.on_pixels (VArr (select_pixels t)) c
  = Some {| Client.W := Client.W c; Client.H := Client.H c;
            Client.pixels := replica_of t |}.
Proof.
  unfold Client.on_pixels, replica_of. rewrite fill_select_pixels.
  reflexivity.
Qed.

Lemma no_other_row x y r t :
  one_row_per_coord (r :: t) -> coord r = (x, y) ->
  forall r', In r' t -> coord r' <> (x, y).
Proof.
  unfold one_row_per_coord. simpl. intros Hnd Hr r' Hin Hr'.
  apply NoDup_cons in Hnd as [Hnotin _]. apply Hnotin.
  rewrite Hr, <- Hr'. apply list_elem_of_In. now apply in_map.
Qed.

Lemma fold_insert_fresh t (m : gmap string string) k v :
  (forall r, In r t -> Client.key (row_x r) (row_y r) <> k) ->
  fold_left (fun m r => <[Client.key (row_x r) (row_y r) := row_color r]> m)
            t (<[k := v]> m)
  = <[k := v]>
      (fold_left
         (fun m r => <[Client.key (row_x r) (row_y r) := row_color r]> m) t m).
Proof.
  revert m. induction t as [|r t IH]; intros m Hfresh; simpl; [ reflexivity |].
  rewrite insert_insert_ne by (apply Hfresh; left; reflexivity).
  apply IH. intros r' Hin. apply Hfresh. right. exact Hin.
Qed.

Lemma fold_insert_upsert x y c ts t (m : gmap string string) :
  one_row_per_coord t ->
  fold_left (fun m r => <[Client.key (row_x r) (row_y r) := row_color r]> m)
            (upsert x y c ts t) m
  = <[Client.key x y := c]>
      (fold_left
         (fun m r => <[Client.key (row_x r) (row_y r) := row_color r]> m) t m).
Proof.
  revert m. induction t as [|r t IH]; intros m Hone; simpl; [ reflexivity |].
  destruct (same_coord x y r) eqn:E; simpl.
  - apply same_coord_spec in E.
    pose proof (no_other_row x y r t Hone E) as Hfresh.
    injection E as Ex Ey. rewrite Ex, Ey.
    assert (forall r', In r' t ->
                       Client.key (row_x r') (row_y r') <> Client.key x y)
      as Hkeys.
    { intros r' Hin Hk. apply key_inj in Hk. exact (Hfresh r' Hin Hk). }
    rewrite !fold_insert_fresh by exact Hkeys.
    rewrite insert_insert_eq. reflexivity.
  - apply IH. unfold one_row_per_coord in *. simpl in Hone.
    apply NoDup_cons in Hone. tauto.
Qed.

Lemma replica_of_upsert x y c ts t :
  one_row_per_coord t ->
  replica_of (upsert x y c ts t) = <[Client.key x y := c]> (replica_of t).
Proof. apply fold_insert_upsert. Qed.

Lemma fold_insert_lookup x y t (m : gmap string string) :
  one_row_per_coord t ->
  fold_left (fun m r => <[Client.key (row_x r) (row_y r) := row_color r]> m)
            t m !! Client.key x y
  = match cell_at x y t with
    | Some (c, _) => Some c
    | None => m !! Client.key x y
    end.
Proof.
  unfold cell_at. revert m. induction t as [|r t IH]; intros m Hone; simpl;
    [ reflexivity |].
  assert (one_row_per_coord t) as Hone'.
  { unfold one_row_per_coord in *. simpl in Hone.
    apply NoDup_cons in Hone. tauto. }
  rewrite (IH _ Hone').
  destruct (same_coord x y r) eqn:E.
  - apply same_coord_spec in E.
    pose proof (no_other_row x y r t Hone E) as Hfresh.
    destruct (find (same_coord x y) t) as [r'|] eqn:F.
    + apply find_some in F as [Hin Hsame]. apply same_coord_spec in Hsame.
      exfalso. exact (Hfresh r' Hin Hsame).
    + injection E as -> ->. apply lookup_insert_eq.
  - destruct (find (same_coord x y) t) as [r'|]; [ reflexivity |].
    apply lookup_insert_ne. intros Hk. apply key_inj in Hk.
    apply same_coord_false in E. exact (E Hk).
Qed.

Lemma receive_pixel_event me x y c cl :
  Client.receive me (pixel_event (VInt x) (VInt y) (VStr c)) cl
  = Some {| Client.W := Client.W cl; Client.H := Client.H cl;
            Client.pixels := <[Client.key x y := c]> (Client.pixels cl) |}.
Proof. reflexivity. Qed.

Lemma receive_placeDenied me sock cl :
  Client.receive me (placeDenied_event sock) cl = Some cl.
Proof.
  unfold Client.receive. simpl. destruct (Nat.eqb _ _); reflexivity.
Qed.

(** One step of the server, seen from a client whose replica is in step. *)
Lemma follow_step cfg me req e s cl :
  one_row_per_coord (pixels s) ->
  Client.pixels cl = replica_of (pixels s) ->
  exists cl',
    Client.receive_all me (emitted (handle cfg req e s)) cl = Some cl'
    /\ Client.pixels cl' = replica_of (pixels (st (handle cfg req e s)))
    /\ Client.W cl' = Client.W cl /\ Client.H cl' = Client.H cl.
Proof.
  intros Hone Hsync.
  destruct (handle_emitted cfg req e s)
    as [H | [(sock & H) | [(x & y & c & Hw & H) | (sock & -> & H)]]].
  - rewrite H. exists cl. simpl.
    destruct (handle_pixels cfg req e s) as [-> | (x & y & c & [_ Hw] & _)];
      [ auto |].
    rewrite H in Hw. discriminate Hw.
  - rewrite H. exists cl. simpl. rewrite receive_placeDenied.
    destruct (handle_pixels cfg req e s) as [-> | (x & y & c & [_ Hw] & _)];
      [ auto |].
    rewrite H in Hw. discriminate Hw.
  - rewrite H. cbn [Client.receive_all]. rewrite receive_pixel_event.
    eexists. split; [ reflexivity |]. cbn [Client.pixels Client.W Client.H].
    apply handle_accepted_write in Hw. rewrite Hw, Hsync.
    rewrite replica_of_upsert by exact Hone. auto.
  - cbn [handle st] in *. unfold socket_on_getPixels in *.
    destruct (db_fails e); cbn [emitted st] in *.
    + exists cl. unfold Client.receive_all, Client.receive. simpl.
      destruct (Nat.eqb _ _); auto.
    + unfold Client.receive_all, Client.receive. cbn [sent_by].
      destruct (Nat.eqb (socket_id sock) me).
      * unfold Client.dispatch. cbn [event payload String.eqb Ascii.eqb
                                       Bool.eqb].
        simpl String.eqb. cbv iota.
        rewrite on_pixels_snapshot. eexists. split; [ reflexivity |]. auto.
      * exists cl. auto.
Qed.

(** X11: joining.  The [config] message of the connection and the answer
    to the client's first [getPixels] leave the client, whatever it held
    before, with the width and height of the server and the replica of the
    table; a client on another socket is not touched. *)
Theorem X11_join_synchronises cfg sock s cl other :
  Client.receive_all (socket_id sock)
    (emitted (io_on_connection cfg sock s)
     ++ emitted (socket_on_getPixels sock false s)) cl
  = Some {| Client.W := CANVAS_W cfg; Client.H := CANVAS_H cfg;
            Client.pixels := replica_of (pixels s) |}
  /\ (other <> socket_id sock ->
      Client.receive_all other
        (emitted (io_on_connection cfg sock s)
         ++ emitted (socket_on_getPixels sock false s)) cl
      = Some cl).
Proof.
  split.
  - cbn [io_on_connection socket_on_getPixels emitted app
           Client.receive_all].
    unfold Client.receive. cbn [sent_by]. rewrite Nat.eqb_refl.
    unfold Client.dispatch. cbn [event payload]. simpl String.eqb. cbv iota.
    cbn [Client.on_config own_property String.eqb]. simpl.
    rewrite fill_select_pixels. reflexivity.
  - intros Hne.
    cbn [io_on_connection socket_on_getPixels emitted app
           Client.receive_all].
    unfold Client.receive. cbn [sent_by].
    assert (Nat.eqb (socket_id sock) other = false) as ->
      by (apply Nat.eqb_neq; congruence).
    reflexivity.
Qed.

(** X13: the replica built from a snapshot answers for every cell as the
    table does: the color stored at [(x, y)] under the key of [(x, y)], and
    nothing under the key of a cell that has no row. *)
Theorem X13_replica_agrees_with_table t cl :
  one_row_per_coord t ->
  Client.on_pixels (VArr (select_pixels t)) cl
  = Some {| Client.W := Client.W cl; Client.H := Client.H cl;
            Client.pixels := replica_of t |}
  /\ forall x y,
       replica_of t !! Client.key x y
       = match cell_at x y t with
         | Some (color, _) => Some color
         | None => None
         end.
Proof.
  intros Hone. split; [ apply on_pixels_snapshot |].
  intros x y. unfold replica_of.
  rewrite (fold_insert_lookup x y t ∅ Hone).
  destruct (cell_at x y t) as [[c ts]|]; [ reflexivity | apply lookup_empty ].
Qed.

Lemma X13_replica_agrees_with_table_witness :
  one_row_per_coord
    (pixels (st (post_api_place default_config sample_ip red_10_20 sample_now
                   false initial_state)))
  /\ replica_of
       (pixels (st (post_api_place default_config sample_ip red_10_20
                      sample_now false initial_state)))
     !! Client.key 10 20
     = Some "#ff0000".
Proof.
  assert (one_row_per_coord
            (pixels (st (post_api_place default_config sample_ip red_10_20
                           sample_now false initial_state)))) as Hone.
  { apply (handle_one_row_per_coord default_config
             (POST_api_place sample_ip red_10_20)
             {| now := sample_now; db_fails := false |} initial_state).
    apply NoDup_nil. exact I. }
  split; [ exact Hone |].
  exact (proj2 (X13_replica_agrees_with_table _ Client.initial Hone) 10 20).
Defined.

(** X14: convergence.  A client whose replica matches the table stays in
    step with it through any sequence of requests: after the emissions of
    every step, its replica is again the replica of the server's table. *)
Theorem X14_replica_follows_the_server cfg me reqs s cl :
  one_row_per_coord (pixels s) ->
  Client.pixels cl = replica_of (pixels s) ->
  exists cl',
    follow cfg me reqs s cl = Some cl'
    /\ Client.pixels cl' = replica_of (pixels (run cfg reqs s))
    /\ Client.W cl' = Client.W cl /\ Client.H cl' = Client.H cl.
Proof.
  revert s cl. induction reqs as [| [req e] reqs IH]; intros s cl Hone Hsync.
  - exists cl. simpl. auto.
  - destruct (follow_step cfg me req e s cl Hone Hsync)
      as (cl1 & Hrecv & Hsync1 & HW & HH).
    cbn [follow run]. rewrite Hrecv.
    destruct (IH (st (handle cfg req e s)) cl1
                (handle_one_row_per_coord cfg req e s Hone) Hsync1)
      as (cl' & Hfollow & Hsync' & HW' & HH').
    exists cl'. rewrite Hfollow. repeat split; congruence.
Qed.

Lemma X14_replica_follows_the_server_witness :
  one_row_per_coord (pixels initial_state)
  /\ Client.pixels Client.initial = replica_of (pixels initial_state)
  /\ exists cl',
       follow default_config 7
         [(POST_api_place sample_ip red_10_20,
           {| now := sample_now; db_fails := false |});
          (On_place sample_socket blue_10_20,
           {| now := sample_now + 1; db_fails := false |})]
         initial_state Client.initial = Some cl'
       /\ Client.pixels cl'
          = replica_of
              (pixels
                 (run default_config
                    [(POST_api_place sample_ip red_10_20,
                      {| now := sample_now; db_fails := false |});
                     (On_place sample_socket blue_10_20,
                      {| now := sample_now + 1; db_fails := false |})]
                    initial_state)).
Proof.
  assert (one_row_per_coord (pixels initial_state)) as Hone
    by (apply NoDup_nil; exact I).
  split; [ exact Hone | split; [ reflexivity |] ].
  destruct (X14_replica_follows_the_server default_config 7
              [(POST_api_place sample_ip red_10_20,
                {| now := sample_now; db_fails := false |});
               (On_place sample_socket blue_10_20,
                {| now := sample_now + 1; db_fails := false |})]
              initial_state Client.initial Hone eq_refl)
    as (cl' & Hfollow & Hsync & _).
  exists cl'. split; assumption.
Defined.

(** X15: end to end.  When the message of [placePixel(x, y, color)] is
    accepted, every client (the sender too) then holds [color] under the key
    of [(x, y)] and every other cell of its replica as before. *)
Theorem X15_placed_pixel_reaches_every_client
    cfg sock x y color ts s me cl :
  structurally_valid cfg (VInt x) (VInt y) (VStr color) ->
  ~ within_cooldown cfg (_socketCooldown s) (handshake_address sock) ts ->
  fst (Client.placePixel (VInt x) (VInt y) (VStr color)) = "place"
  /\ exists cl',
       Client.receive_all me
         (emitted (socket_on_place cfg sock
                     (snd (Client.placePixel (VInt x) (VInt y) (VStr color)))
                     ts false s)) cl
       = Some cl'
       /\ Client.pixels cl' !! Client.key x y = Some color
       /\ forall x' y', (x', y') <> (x, y) ->
            Client.pixels cl' !! Client.key x' y'
            = Client.pixels cl !! Client.key x' y'.
Proof.
  intros Hv Hw. split; [ reflexivity |].
  rewrite (socket_on_place_admitted cfg sock
             (snd (Client.placePixel (VInt x) (VInt y) (VStr color)))
             (VInt x) (VInt y) (VStr color) ts false s eq_refl Hv Hw).
  cbn [emitted Client.receive_all]. rewrite receive_pixel_event.
  eexists. split; [ reflexivity |]. cbn [Client.pixels]. split.
  - apply lookup_insert_eq.
  - intros x' y' Hne. apply lookup_insert_ne.
    intros Hk. apply key_inj in Hk. congruence.
Qed.

Lemma X15_placed_pixel_reaches_every_client_witness :
  structurally_valid default_config (VInt 10) (VInt 20) (VStr "#ff0000")
  /\ exists cl',
       Client.receive_all 7
         (emitted (socket_on_place default_config sample_socket
                     (snd (Client.placePixel (VInt 10) (VInt 20)
                             (VStr "#ff0000")))
                     sample_now false initial_state)) Client.initial
       = Some cl'
       /\ Client.pixels cl' !! Client.key 10 20 = Some "#ff0000".
Proof.
  split; [ exact sample_request_valid |].
  destruct (X15_placed_pixel_reaches_every_client default_config
              sample_socket 10 20 "#ff0000" sample_now initial_state 7
              Client.initial sample_request_valid
              (sample_actor_fresh _socketCooldown (or_intror eq_refl)))
    as (_ & cl' & Hrecv & Hlook & _).
  exists cl'. split; assumption.
Defined.

(** * Two more properties of the arbiter *)

(** X17: the first write.  On an empty table, a valid request of any actor
    at a time not below the cooldown is accepted on either path, and the
    table then holds exactly that cell with the time of the request. *)
Theorem X17_first_write_on_empty_table cfg ip sock msg x y color ts s :
  destructure msg = Some (VInt x, VInt y, VStr color) ->
  structurally_valid cfg (VInt x) (VInt y) (VStr color) ->
  PLACE_COOLDOWN_MS cfg <= ts ->
  pixels s = [] ->
  (lastAcceptedAt (_placeCooldown s) ip = None ->
   reply (post_api_place cfg ip msg ts false s)
   = json_reply 200 (VObj [("ok", VBool true)])
   /\ pixels (st (post_api_place cfg ip msg ts false s))
      = [ {| row_x := x; row_y := y; row_color := color;
             row_last_modified := ts |} ])
  /\ (lastAcceptedAt (_socketCooldown s) (handshake_address sock) = None ->
      emitted (socket_on_place cfg sock msg ts false s)
      = [pixel_event (VInt x) (VInt y) (VStr color)]
      /\ pixels (st (socket_on_place cfg sock msg ts false s))
         = [ {| row_x := x; row_y := y; row_color := color;
                row_last_modified := ts |} ]).
Proof.
  intros Hd Hv Hclock Hempty. split; intros Hnone.
  - assert (~ within_cooldown cfg (_placeCooldown s) ip ts) as Hw
      by (unfold within_cooldown; rewrite Hnone; simpl; lia).
    rewrite (post_api_place_admitted _ _ _ _ _ _ _ _ _ Hd Hv Hw).
    cbn [st reply pixels]. rewrite Hempty. auto.
  - assert (~ within_cooldown cfg (_socketCooldown s)
                (handshake_address sock) ts) as Hw
      by (unfold within_cooldown; rewrite Hnone; simpl; lia).
    rewrite (socket_on_place_admitted _ _ _ _ _ _ _ _ _ Hd Hv Hw).
    cbn [st emitted pixels]. rewrite Hempty. auto.
Qed.

Lemma X17_first_write_on_empty_table_witness :
  destructure red_10_20 = Some (VInt 10, VInt 20, VStr "#ff0000")
  /\ PLACE_COOLDOWN_MS default_config <= sample_now
  /\ pixels initial_state = []
  /\ pixels (st (post_api_place default_config sample_ip red_10_20 sample_now
                   false initial_state))
     = [ {| row_x := 10; row_y := 20; row_color := "#ff0000";
            row_last_modified := sample_now |} ].
Proof.
  assert (PLACE_COOLDOWN_MS default_config <= sample_now) as Hclock
    by (vm_compute; discriminate).
  split; [ reflexivity | split; [ exact Hclock | split; [ reflexivity |] ] ].
  exact (proj2 (proj1 (X17_first_write_on_empty_table default_config sample_ip
                         sample_socket red_10_20 10 20 "#ff0000" sample_now
                         initial_state eq_refl sample_request_valid Hclock
                         eq_refl) eq_refl)).
Defined.

(** X18: the window is exact.  After a request of an actor has been
    admitted at time [ts], whether or not its upsert succeeded, the next
    valid request of that actor on the same path is denied exactly when it
    comes before [ts + cooldown]. *)
Theorem X18_window_is_exact
    cfg ip sock msg x y color ts db_err msg2 x2 y2 color2 ts2 db_err2 s :
  destructure msg = Some (x, y, color) ->
  structurally_valid cfg x y color ->
  destructure msg2 = Some (x2, y2, color2) ->
  structurally_valid cfg x2 y2 color2 ->
  (~ within_cooldown cfg (_placeCooldown s) ip ts ->
   verdict_of
     (exit (post_api_place cfg ip msg2 ts2 db_err2
              (st (post_api_place cfg ip msg ts db_err s))))
   = Rejected Cooldown
   <-> ts2 < ts + PLACE_COOLDOWN_MS cfg)
  /\ (~ within_cooldown cfg (_socketCooldown s) (handshake_address sock) ts ->
      verdict_of
        (exit (socket_on_place cfg sock msg2 ts2 db_err2
                 (st (socket_on_place cfg sock msg ts db_err s))))
      = Rejected Cooldown
      <-> ts2 < ts + PLACE_COOLDOWN_MS cfg).
Proof.
  intros Hd Hv Hd2 Hv2. split; intros Hw.
  - rewrite (post_api_place_denied_iff _ _ _ _ _ _ _ _ _ Hd2 Hv2).
    rewrite (post_api_place_admitted _ _ _ _ _ _ _ _ _ Hd Hv Hw).
    cbn [st _placeCooldown]. rewrite within_cooldown_after_write. lia.
  - rewrite (socket_on_place_denied_iff _ _ _ _ _ _ _ _ _ Hd2 Hv2).
    rewrite (socket_on_place_admitted _ _ _ _ _ _ _ _ _ Hd Hv Hw).
    cbn [st _socketCooldown]. rewrite within_cooldown_after_write. lia.
Qed.

Lemma X18_window_is_exact_witness :
  destructure red_10_20 = Some (VInt 10, VInt 20, VStr "#ff0000")
  /\ (verdict_of
        (exit (post_api_place default_config sample_ip red_10_20
                 (sample_now + 4999) false
                 (st (post_api_place default_config sample_ip red_10_20
                        sample_now true initial_state))))
      = Rejected Cooldown
      <-> sample_now + 4999 < sample_now + PLACE_COOLDOWN_MS default_config).
Proof.
  split; [ reflexivity |].
  exact (proj1 (X18_window_is_exact default_config sample_ip sample_socket
                  red_10_20 (VInt 10) (VInt 20) (VStr "#ff0000") sample_now
                  true red_10_20 (VInt 10) (VInt 20) (VStr "#ff0000")
                  (sample_now + 4999) false initial_state eq_refl
                  sample_request_valid eq_refl sample_request_valid)
           (sample_actor_fresh _placeCooldown (or_introl eq_refl))).
Defined.
